(** * The upload-and-analyze pipeline of [app/routes/upload.tsx]

    A shallow embedding of [handleAnalyze] and of the host functions it
    relies on ([String.prototype.includes], [JSON.stringify], [JSON.parse]),
    and of the rest of the route ([handleFileSelect], [handleSubmit], what
    the page shows), followed by the properties of the pipeline.

    Conventions.
    - A JavaScript string is the list of its UTF-16 code units.
    - A number is an IEEE 754 double, held exactly as a significand and an
      exponent of two; the value of a number literal is the nearest double,
      and [Number::toString] writes the fewest digits that read back.
    - A JavaScript object is the list of its own properties in the order
      [OrdinaryOwnPropertyKeys] enumerates them: array indices in ascending
      order first, then the other keys in creation order. *)

From Stdlib Require Import List NArith ZArith String Ascii Bool Lia.
From Stdlib Require Import DecimalFacts DecimalPos DecimalN DecimalZ.
Import ListNotations.

Set Implicit Arguments.

(* ================================================================== *)
(** * Part I: definitions                                              *)
(* ================================================================== *)

(** ** Strings *)

Definition code_unit := N.
Definition jsstring := list code_unit.

(** A literal of the source, as code units. *)
Definition str (s : string) : jsstring :=
  map N_of_ascii (list_ascii_of_string s).

Fixpoint jsstring_eqb (a b : jsstring) : bool :=
  match a, b with
  | [], [] => true
  | x :: a', y :: b' => N.eqb x y && jsstring_eqb a' b'
  | _, _ => false
  end.

(** [s.startsWith(p)] *)
Fixpoint startsWith (s p : jsstring) {struct p} : bool :=
  match p, s with
  | [], _ => true
  | x :: p', y :: s' => N.eqb x y && startsWith s' p'
  | _ :: _, [] => false
  end.

(** [s.includes(p)]: [p] occurs in [s] at some position; code units are
    compared as they are, so the test is case-sensitive. *)
Fixpoint includes (s p : jsstring) : bool :=
  startsWith s p ||
  match s with
  | [] => false
  | _ :: s' => includes s' p
  end.

(** ** Numbers *)

(** A Number value, an IEEE 754 binary64, held exactly: [Finite s m e] is
    [m * 2^e], negated when [s] is set. *)
Inductive number : Type :=
| NaN
| Infinity (negative : bool)
| Zero (negative : bool)
| Finite (negative : bool) (m : positive) (e : Z).

(** The Number values: a significand of 53 bits with an exponent from
    [-1074] to [971], or a shorter one with the exponent [-1074]. *)
Definition is_number (x : number) : bool :=
  match x with
  | Finite _ m e =>
      ((Z.pos m <? 2 ^ 53) &&
       (((2 ^ 52 <=? Z.pos m) && (-1074 <=? e) && (e <=? 971)) || (e =? -1074)))%Z
  | _ => true
  end.

Definition is_finite (x : number) : bool :=
  match x with
  | Zero _ | Finite _ _ _ => true
  | NaN | Infinity _ => false
  end.

Definition number_eqb (x y : number) : bool :=
  match x, y with
  | NaN, NaN => true
  | Infinity a, Infinity b => Bool.eqb a b
  | Zero a, Zero b => Bool.eqb a b
  | Finite a m e, Finite b m' e' => Bool.eqb a b && Pos.eqb m m' && Z.eqb e e'
  | _, _ => false
  end.

(** [p / q], divided by [2^e], as a fraction. *)
Definition numerator_at (p : positive) (e : Z) : Z :=
  (Z.pos p * 2 ^ Z.max 0 (- e))%Z.

Definition denominator_at (q : positive) (e : Z) : Z :=
  (Z.pos q * 2 ^ Z.max 0 e)%Z.

(** The integer nearest to [num / den], the even one of two as near. *)
Definition nearest_even (num den : Z) : Z :=
  let m := (num / den)%Z in
  let r := (num mod den)%Z in
  if (2 * r <? den)%Z then m
  else if (den <? 2 * r)%Z then (m + 1)%Z
  else if Z.even m then m else (m + 1)%Z.

(** The exponent [e] for which [p / q / 2^e] has 53 bits: one of the two
    that the lengths of [p] and [q] leave. *)
Definition free_exponent (p q : positive) : Z :=
  let e1 := (Z.log2 (Z.pos p) - Z.log2 (Z.pos q) - 53)%Z in
  if (numerator_at p e1 / denominator_at q e1 <? 2 ^ 53)%Z
  then e1 else (e1 + 1)%Z.

(** The exponent of the Number value for [p / q]: not below [-1074],
    where the significand gets shorter instead. *)
Definition exponent_of (p q : positive) : Z :=
  Z.max (free_exponent p q) (-1074).

(** [m * 2^e] as a Number value: an infinity when [e] is above [971]. *)
Definition make_number (negative : bool) (m e : Z) : number :=
  if (971 <? e)%Z then Infinity negative
  else match m with
       | Z.pos m' => Finite negative m' e
       | _ => Zero negative
       end.

(** The Number value for the positive quotient [p / q]: the nearest one,
    and of two as near the one with an even significand. *)
Definition round_ratio (negative : bool) (p q : positive) : number :=
  let e := exponent_of p q in
  let m := nearest_even (numerator_at p e) (denominator_at q e) in
  if (m =? 2 ^ 53)%Z then make_number negative (2 ^ 52) (e + 1)
  else make_number negative m e.

(** The Number value for [s * 10^d]: [s * 10^d] rounded, and [0] for
    [s = 0]. *)
Definition decimal_value (negative : bool) (s : N) (d : Z) : number :=
  match s with
  | N0 => Zero negative
  | Npos p =>
      if (0 <=? d)%Z then round_ratio negative (p * Z.to_pos (10 ^ d)) 1
      else round_ratio negative p (Z.to_pos (10 ^ (- d)))
  end.

(** The Number value for an integer. *)
Definition integer (z : Z) : number :=
  decimal_value (z <? 0)%Z (Z.abs_N z) 0.

(** *** [Number::toString] *)

Fixpoint uint_units (u : Decimal.uint) : jsstring :=
  match u with
  | Decimal.Nil => []
  | Decimal.D0 u' => 48%N :: uint_units u'
  | Decimal.D1 u' => 49%N :: uint_units u'
  | Decimal.D2 u' => 50%N :: uint_units u'
  | Decimal.D3 u' => 51%N :: uint_units u'
  | Decimal.D4 u' => 52%N :: uint_units u'
  | Decimal.D5 u' => 53%N :: uint_units u'
  | Decimal.D6 u' => 54%N :: uint_units u'
  | Decimal.D7 u' => 55%N :: uint_units u'
  | Decimal.D8 u' => 56%N :: uint_units u'
  | Decimal.D9 u' => 57%N :: uint_units u'
  end.

(** The decimal digits of [s]. *)
Definition digits_of (s : N) : jsstring := uint_units (N.to_uint s).

Definition zeros (n : Z) : jsstring := repeat 48%N (Z.to_nat n).

(** The text for [s * 10^d]: with [k] the number of digits of [s] and
    [n = d + k], the digits and [n - k] zeros when [k <= n <= 21], the
    digits with a point after the first [n] when [0 < n <= 21], the digits
    after [0.] and [- n] zeros when [-6 < n <= 0], and otherwise the
    first digit, the others after a point, and the exponent [n - 1]. *)
Definition format_digits (s : N) (d : Z) : jsstring :=
  let ds := digits_of s in
  let k := Z.of_nat (List.length ds) in
  let n := (d + k)%Z in
  if ((k <=? n) && (n <=? 21))%Z then ds ++ zeros (n - k)
  else if ((0 <? n) && (n <=? 21))%Z then
    firstn (Z.to_nat n) ds ++ 46%N :: skipn (Z.to_nat n) ds
  else if ((-6 <? n) && (n <=? 0))%Z then
    48%N :: 46%N :: zeros (- n) ++ ds
  else
    let exponent :=
      101%N :: (if (0 <=? n - 1)%Z then 43%N else 45%N)
      :: digits_of (Z.abs_N (n - 1)) in
    match ds with
    | [] => exponent
    | [c] => c :: exponent
    | c :: ds' => c :: 46%N :: ds' ++ exponent
    end.

Section Shortest.
(** [x] is [exact * 10^(- places)], and [exact] has [count] digits. *)
Variables (x : number) (exact : N) (places count : Z).

(** [s * 10^d] for the two [s] of [k] digits next to [x]: the first [k]
    digits of [exact], and one more in the last place. The result is the
    one that reads back as [x]; the nearer to [x] when both do, and the
    even one of two as near. *)
Definition shortest_at (k : Z) : option (N * Z) :=
  let step := (10 ^ Z.to_N (count - k))%N in
  let low := (exact / step)%N in
  let below := (exact mod step)%N in
  let d := (count - places - k)%Z in
  let high := if (low + 1 =? 10 ^ Z.to_N k)%N
              then ((10 ^ Z.to_N (k - 1))%N, (d + 1)%Z)
              else ((low + 1)%N, d) in
  let low_reads := number_eqb (decimal_value false low d) x in
  let high_reads := number_eqb (decimal_value false (fst high) (snd high)) x in
  if low_reads && high_reads then
    if (2 * below <? step)%N then Some (low, d)
    else if (step <? 2 * below)%N then Some high
    else if N.even low then Some (low, d) else Some high
  else if low_reads then Some (low, d)
  else if high_reads then Some high
  else None.

(** The fewest digits that read back as [x], looked for from [k] digits
    on; all the digits of [exact] do. *)
Fixpoint shortest (more : nat) (k : Z) : N * Z :=
  match more with
  | O => (exact, (- places)%Z)
  | S more' =>
      match shortest_at k with
      | Some r => r
      | None => shortest more' (k + 1)%Z
      end
  end.

End Shortest.

(** [Number::toString(x)] for [x = m * 2^e]: the text for [s * 10^(n - k)]
    with [s] of [k] digits, as few as possible, such that [s * 10^(n - k)]
    reads back as [x]. The digits of [x] itself are those of [m * 2^e],
    or of [m * 5^(- e)] after [- e] decimal places. *)
Definition finite_to_string (m : positive) (e : Z) : jsstring :=
  let exact := if (0 <=? e)%Z then (Npos m * 2 ^ Z.to_N e)%N
               else (Npos m * 5 ^ Z.to_N (- e))%N in
  let places := if (0 <=? e)%Z then 0%Z else (- e)%Z in
  let count := Z.of_nat (List.length (digits_of exact)) in
  match shortest (Finite false m e) exact places count
                 (Z.to_nat (count - 1)) 1 with
  | (s, d) => format_digits s d
  end.

Definition Number_toString (x : number) : jsstring :=
  match x with
  | NaN => str "NaN"
  | Infinity false => str "Infinity"
  | Infinity true => str "-Infinity"
  | Zero _ => str "0"
  | Finite false m e => finite_to_string m e
  | Finite true m e => 45%N :: finite_to_string m e
  end.

(** *** Number literals of JSON *)

Definition is_digit (c : code_unit) : bool := ((48 <=? c) && (c <=? 57))%N.

(** What follows the digits of a literal is no digit. *)
Definition digits_end (rest : jsstring) : bool :=
  match rest with
  | [] => true
  | c :: _ => negb (is_digit c)
  end.

(** The digits [s] starts with, and what follows them. *)
Fixpoint take_digits (s : jsstring) : jsstring * jsstring :=
  match s with
  | [] => ([], [])
  | c :: s' =>
      if is_digit c
      then let (ds, rest) := take_digits s' in (c :: ds, rest)
      else ([], s)
  end.

Definition digits_value (ds : jsstring) : N :=
  fold_left (fun a c => (a * 10 + (c - 48))%N) ds 0%N.

(** The integer part of a literal: [0], or digits that do not start with
    [0]. *)
Definition integer_part (ds : jsstring) : bool :=
  match ds with
  | [] => false
  | [_] => true
  | c :: _ :: _ => negb (c =? 48)%N
  end.

(** The fraction of a literal, if it has one: a point and digits. The
    result is the digits, and what follows them. *)
Definition read_fraction (s : jsstring) : option (jsstring * jsstring) :=
  match s with
  | 46%N :: s' =>
      match take_digits s' with
      | ([], _) => None
      | (c :: frac, rest) => Some (c :: frac, rest)
      end
  | _ => Some ([], s)
  end.

(** The exponent of a literal, if it has one: [e] or [E], an optional
    sign, and digits to the end. *)
Definition read_exponent (s : jsstring) : option Z :=
  match s with
  | [] => Some 0%Z
  | c :: s' =>
      if ((c =? 101) || (c =? 69))%N then
        let minus := match s' with 45%N :: _ => true | _ => false end in
        let s'' := match s' with
                   | 43%N :: t => t
                   | 45%N :: t => t
                   | _ => s'
                   end in
        match take_digits s'' with
        | (d :: ds, []) =>
            Some (if minus then (- Z.of_N (digits_value (d :: ds)))%Z
                  else Z.of_N (digits_value (d :: ds)))
        | _ => None
        end
      else None
  end.

(** A literal without sign: an integer part, an optional fraction, an
    optional exponent. The result is the digits of the integer part and
    of the fraction as one integer, and the power of ten it is multiplied
    by. *)
Definition read_unsigned (s : jsstring) : option (N * Z) :=
  let (int, s2) := take_digits s in
  if integer_part int then
    match read_fraction s2 with
    | Some (frac, s3) =>
        match read_exponent s3 with
        | Some ex =>
            Some (digits_value (int ++ frac),
                  (ex - Z.of_nat (List.length frac))%Z)
        | None => None
        end
    | None => None
    end
  else None.

(** The Number value of a JSON number literal, after its optional minus
    sign. *)
Definition literal_value (s : jsstring) : option number :=
  let negative := match s with 45%N :: _ => true | _ => false end in
  let unsigned := match s with 45%N :: s' => s' | _ => s end in
  match read_unsigned unsigned with
  | Some (ds, d) => Some (decimal_value negative ds d)
  | None => None
  end.

(** The units of number literals: digits, signs, the point, [E] and [e]. *)
Definition is_number_unit (c : code_unit) : bool :=
  is_digit c || ((c =? 43) || (c =? 45) || (c =? 46) || (c =? 69) || (c =? 101))%N.

(** The numbers a JSON text holds as they are: the finite Number values
    other than [-0]. [JSON.stringify] writes [null] for the others, and
    [0] for [-0]. *)
Definition json_number (x : number) : bool :=
  is_number x && is_finite x && negb (number_eqb x (Zero true)).

(** ** JSON values *)

#[local] Set Warnings "-register-all".

Inductive json : Type :=
| JNull
| JBool (b : bool)
| JNumber (n : number)
| JString (s : jsstring)
| JArray (elements : list json)
| JObject (properties : list (jsstring * json)).

(** *** [JSON.stringify] *)

Definition hex_digit (n : N) : code_unit :=
  if (n <? 10)%N then (48 + n)%N else (87 + n)%N.

(** [UnicodeEscape]: a backslash, [u] and four lowercase hexadecimal digits. *)
Definition unicode_escape (c : code_unit) : jsstring :=
  [92; 117;
   hex_digit ((c / 4096) mod 16); hex_digit ((c / 256) mod 16);
   hex_digit ((c / 16) mod 16); hex_digit (c mod 16)]%N.

Definition is_leading_surrogate (c : code_unit) : bool :=
  ((55296 <=? c) && (c <=? 56319))%N.

Definition is_trailing_surrogate (c : code_unit) : bool :=
  ((56320 <=? c) && (c <=? 57343))%N.

(** One code point that is not half of a surrogate pair. *)
Definition escape_unit (c : code_unit) : jsstring :=
  if (c =? 8)%N then [92; 98]%N
  else if (c =? 9)%N then [92; 116]%N
  else if (c =? 10)%N then [92; 110]%N
  else if (c =? 12)%N then [92; 102]%N
  else if (c =? 13)%N then [92; 114]%N
  else if (c =? 34)%N then [92; 34]%N
  else if (c =? 92)%N then [92; 92]%N
  else if (c <? 32)%N || is_leading_surrogate c || is_trailing_surrogate c
       then unicode_escape c
  else [c].

(** The body of [QuoteJSONString]: a surrogate pair is copied, a lone
    surrogate is escaped. *)
Fixpoint quote_units (s : jsstring) : jsstring :=
  match s with
  | [] => []
  | c :: s' =>
      if is_leading_surrogate c then
        match s' with
        | d :: s'' =>
            if is_trailing_surrogate d then c :: d :: quote_units s''
            else unicode_escape c ++ quote_units s'
        | [] => unicode_escape c
        end
      else escape_unit c ++ quote_units s'
  end.

Definition QuoteJSONString (s : jsstring) : jsstring :=
  34%N :: quote_units s ++ [34%N].

Fixpoint join_comma (parts : list jsstring) : jsstring :=
  match parts with
  | [] => []
  | p :: ps =>
      match ps with
      | [] => p
      | _ :: _ => p ++ 44%N :: join_comma ps
      end
  end.

Fixpoint stringify (v : json) : jsstring :=
  match v with
  | JNull => str "null"
  | JBool true => str "true"
  | JBool false => str "false"
  | JNumber n => if is_finite n then Number_toString n else str "null"
  | JString s => QuoteJSONString s
  | JArray vs => 91%N :: join_comma (map stringify vs) ++ [93%N]
  | JObject kvs =>
      123%N ::
      join_comma
        (map (fun kv => match kv with
                        | (k, x) => QuoteJSONString k ++ 58%N :: stringify x
                        end) kvs)
      ++ [125%N]
  end.

(** *** [JSON.parse]: the lexer *)

Inductive token : Type :=
| TLBrace | TRBrace | TLBracket | TRBracket | TColon | TComma
| TString (s : jsstring)
| TNumber (n : number)
| TTrue | TFalse | TNull.

(** JSON white space: tab, line feed, carriage return, space. *)
Definition is_ws (c : code_unit) : bool :=
  ((c =? 9) || (c =? 10) || (c =? 13) || (c =? 32))%N.

Definition digit_of (c : code_unit) : option (Decimal.uint -> Decimal.uint) :=
  if (c =? 48)%N then Some Decimal.D0
  else if (c =? 49)%N then Some Decimal.D1
  else if (c =? 50)%N then Some Decimal.D2
  else if (c =? 51)%N then Some Decimal.D3
  else if (c =? 52)%N then Some Decimal.D4
  else if (c =? 53)%N then Some Decimal.D5
  else if (c =? 54)%N then Some Decimal.D6
  else if (c =? 55)%N then Some Decimal.D7
  else if (c =? 56)%N then Some Decimal.D8
  else if (c =? 57)%N then Some Decimal.D9
  else None.

Definition hex_value (c : code_unit) : option N :=
  if ((48 <=? c) && (c <=? 57))%N then Some (c - 48)%N
  else if ((97 <=? c) && (c <=? 102))%N then Some (c - 87)%N
  else if ((65 <=? c) && (c <=? 70))%N then Some (c - 55)%N
  else None.

Definition hex4 (a b c d : code_unit) : option code_unit :=
  match hex_value a, hex_value b, hex_value c, hex_value d with
  | Some x, Some y, Some z, Some w => Some (((x * 16 + y) * 16 + z) * 16 + w)%N
  | _, _, _, _ => None
  end.

(** The character after a backslash, other than [u]. *)
Definition simple_escape (c : code_unit) : option code_unit :=
  if (c =? 34)%N then Some 34%N
  else if (c =? 92)%N then Some 92%N
  else if (c =? 47)%N then Some 47%N
  else if (c =? 98)%N then Some 8%N
  else if (c =? 102)%N then Some 12%N
  else if (c =? 110)%N then Some 10%N
  else if (c =? 114)%N then Some 13%N
  else if (c =? 116)%N then Some 9%N
  else None.

(** A number literal, with its value. *)
Definition number_token (literal : jsstring) : option token :=
  match literal_value literal with
  | Some n => Some (TNumber n)
  | None => None
  end.

Definition cons_token (t : option token) (ts : option (list token))
  : option (list token) :=
  match t, ts with
  | Some t', Some ts' => Some (t' :: ts')
  | _, _ => None
  end.

(** The lexer reads the text one code unit at a time: [lex] between
    tokens, [lex_string] inside a string literal and [lex_number] inside a
    number literal (the units read so far are in [acc], last first). A
    number literal goes on as far as the units of number literals do. *)
Fixpoint lex (s : jsstring) : option (list token) :=
  match s with
  | [] => Some []
  | c :: s' =>
      if is_ws c then lex s'
      else if (c =? 123)%N then cons_token (Some TLBrace) (lex s')
      else if (c =? 125)%N then cons_token (Some TRBrace) (lex s')
      else if (c =? 91)%N then cons_token (Some TLBracket) (lex s')
      else if (c =? 93)%N then cons_token (Some TRBracket) (lex s')
      else if (c =? 58)%N then cons_token (Some TColon) (lex s')
      else if (c =? 44)%N then cons_token (Some TComma) (lex s')
      else if (c =? 34)%N then lex_string [] s'
      else if (c =? 45)%N then lex_number [c] s'
      else if (c =? 116)%N then
        match s' with
        | r :: u :: e :: s4 =>
            if ((r =? 114) && (u =? 117) && (e =? 101))%N
            then cons_token (Some TTrue) (lex s4) else None
        | _ => None
        end
      else if (c =? 102)%N then
        match s' with
        | a :: l :: s3 :: e :: s5 =>
            if ((a =? 97) && (l =? 108) && (s3 =? 115) && (e =? 101))%N
            then cons_token (Some TFalse) (lex s5) else None
        | _ => None
        end
      else if (c =? 110)%N then
        match s' with
        | u :: l :: l' :: s4 =>
            if ((u =? 117) && (l =? 108) && (l' =? 108))%N
            then cons_token (Some TNull) (lex s4) else None
        | _ => None
        end
      else if is_digit c then lex_number [c] s'
      else None
  end
with lex_string (acc : jsstring) (s : jsstring) : option (list token) :=
  match s with
  | [] => None
  | c :: s' =>
      if (c =? 34)%N then cons_token (Some (TString (rev acc))) (lex s')
      else if (c =? 92)%N then
        match s' with
        | [] => None
        | e :: s2 =>
            if (e =? 117)%N then
              match s2 with
              | h1 :: h2 :: h3 :: h4 :: s6 =>
                  match hex4 h1 h2 h3 h4 with
                  | Some u => lex_string (u :: acc) s6
                  | None => None
                  end
              | _ => None
              end
            else
              match simple_escape e with
              | Some u => lex_string (u :: acc) s2
              | None => None
              end
        end
      else if (c <? 32)%N then None
      else lex_string (c :: acc) s'
  end
with lex_number (acc : jsstring) (s : jsstring) : option (list token) :=
  match s with
  | [] => cons_token (number_token (rev acc)) (Some [])
  | c :: s' =>
      if is_number_unit c then lex_number (c :: acc) s'
      else
        (* the literal ends here; what may follow a value is white
           space, a comma or a closing bracket *)
        let n := number_token (rev acc) in
        if is_ws c then cons_token n (lex s')
        else if (c =? 44)%N then cons_token n (cons_token (Some TComma) (lex s'))
        else if (c =? 93)%N then cons_token n (cons_token (Some TRBracket) (lex s'))
        else if (c =? 125)%N then cons_token n (cons_token (Some TRBrace) (lex s'))
        else None
  end.

(** *** [JSON.parse]: objects *)

Fixpoint units_uint (s : jsstring) : option Decimal.uint :=
  match s with
  | [] => Some Decimal.Nil
  | c :: s' =>
      match digit_of c, units_uint s' with
      | Some d, Some u => Some (d u)
      | _, _ => None
      end
  end.

(** An array index: the canonical decimal form of an integer below
    [2^32 - 1]. *)
Definition array_index (k : jsstring) : option N :=
  match units_uint k with
  | Some u =>
      if Decimal.uint_beq (Decimal.unorm u) u && (N.of_uint u <? 4294967295)%N
      then Some (N.of_uint u) else None
  | None => None
  end.

Definition js_object := list (jsstring * json).

Fixpoint has_property (k : jsstring) (o : js_object) : bool :=
  match o with
  | [] => false
  | (k', _) :: o' => jsstring_eqb k k' || has_property k o'
  end.

Fixpoint replace_property (k : jsstring) (v : json) (o : js_object) : js_object :=
  match o with
  | [] => []
  | (k', v') :: o' =>
      if jsstring_eqb k k' then (k', v) :: o'
      else (k', v') :: replace_property k v o'
  end.

Fixpoint insert_index (i : N) (k : jsstring) (v : json) (o : js_object) : js_object :=
  match o with
  | [] => [(k, v)]
  | (k', v') :: o' =>
      match array_index k' with
      | Some j => if (j <? i)%N then (k', v') :: insert_index i k v o'
                  else (k, v) :: o
      | None => (k, v) :: o
      end
  end.

(** [CreateDataProperty]: an existing property keeps its place and takes
    the new value; a new one is enumerated after the smaller array indices
    when its key is an array index, last otherwise. *)
Definition CreateDataProperty (o : js_object) (k : jsstring) (v : json) : js_object :=
  if has_property k o then replace_property k v o
  else match array_index k with
       | Some i => insert_index i k v o
       | None => o ++ [(k, v)]
       end.

(** *** [JSON.parse]: the parser *)

(** The containers that are open around the value being read. *)
Inductive frame : Type :=
| InArray (done : list json)
| InObject (o : js_object) (key : jsstring).

(** [parse_value stack ts]: a value is expected; [parse_after stack v ts]:
    the value [v] has just been read. *)
Fixpoint parse_value (stack : list frame) (ts : list token) : option json :=
  match ts with
  | [] => None
  | t :: ts' =>
      match t with
      | TNull => parse_after stack JNull ts'
      | TTrue => parse_after stack (JBool true) ts'
      | TFalse => parse_after stack (JBool false) ts'
      | TNumber n => parse_after stack (JNumber n) ts'
      | TString s => parse_after stack (JString s) ts'
      | TLBracket =>
          match ts' with
          | TRBracket :: ts2 => parse_after stack (JArray []) ts2
          | _ => parse_value (InArray [] :: stack) ts'
          end
      | TLBrace =>
          match ts' with
          | TRBrace :: ts2 => parse_after stack (JObject []) ts2
          | TString k :: TColon :: ts3 => parse_value (InObject [] k :: stack) ts3
          | _ => None
          end
      | _ => None
      end
  end
with parse_after (stack : list frame) (v : json) (ts : list token) : option json :=
  match stack with
  | [] =>
      match ts with
      | [] => Some v
      | _ :: _ => None
      end
  | InArray done :: stack' =>
      match ts with
      | TComma :: ts' => parse_value (InArray (v :: done) :: stack') ts'
      | TRBracket :: ts' => parse_after stack' (JArray (rev (v :: done))) ts'
      | _ => None
      end
  | InObject o k :: stack' =>
      match ts with
      | TComma :: TString k' :: TColon :: ts3 =>
          parse_value (InObject (CreateDataProperty o k v) k' :: stack') ts3
      | TRBrace :: ts' =>
          parse_after stack' (JObject (CreateDataProperty o k v)) ts'
      | _ => None
      end
  end.

(** [JSON.parse text]: [None] stands for the [SyntaxError] it throws. *)
Definition parse (text : jsstring) : option json :=
  match lex text with
  | Some ts => parse_value [] ts
  | None => None
  end.

(** *** The tokens of a value *)

(** What [stringify] writes, token by token: the lexer reads the text of a
    value back into these. *)
Fixpoint join_tokens (parts : list (list token)) : list token :=
  match parts with
  | [] => []
  | p :: ps =>
      match ps with
      | [] => p
      | _ :: _ => p ++ TComma :: join_tokens ps
      end
  end.

Fixpoint tokens (v : json) : list token :=
  match v with
  | JNull => [TNull]
  | JBool true => [TTrue]
  | JBool false => [TFalse]
  | JNumber n => [TNumber n]
  | JString s => [TString s]
  | JArray vs => TLBracket :: join_tokens (map tokens vs) ++ [TRBracket]
  | JObject kvs =>
      TLBrace ::
      join_tokens
        (map (fun kv => match kv with
                        | (k, x) => TString k :: TColon :: tokens x
                        end) kvs)
      ++ [TRBrace]
  end.

(** The text after a value: nothing, white space, a comma or a closing
    bracket. *)
Definition value_end (rest : jsstring) : bool :=
  match rest with
  | [] => true
  | c :: _ => (is_ws c || (c =? 44) || (c =? 93) || (c =? 125))%N
  end.

(** A token that can start a value. *)
Definition starts_value (ts : list token) : bool :=
  match ts with
  | (TNull | TTrue | TFalse | TNumber _ | TString _ | TLBracket | TLBrace) :: _ => true
  | _ => false
  end.

(** The object built from [o] by creating the properties [kvs] in order. *)
Definition create_properties (o : js_object) (kvs : list (jsstring * json))
  : js_object :=
  fold_left (fun o' kv => match kv with (k, x) => CreateDataProperty o' k x end)
            kvs o.

(** ** The data of the route *)

(** A browser [File]: the fields the route reads. The type is any string
    here; that of a file is [Blob_type] of what was declared for it, see
    below, and what holds for every string holds for it. *)
Module File.
Record t : Type := { name : jsstring; size : N; type : jsstring }.
End File.




(** Modelled from the spec: the Blob Store, declared outside the route's
    file, resolves an upload to an item with a [path]. *)
Module FSItem.
Record t : Type := { path : jsstring }.
End FSItem.

(** Modelled from the spec: the Rasterizer, declared outside the route's
    file, resolves to a result with an image [file] or an [error]; the
    route reads these two fields. *)
Module PdfConversionResult.
Record t : Type := { file : option File.t; error : option jsstring }.
End PdfConversionResult.

(** Modelled from the spec: the Feedback Service, declared outside the
    route's file, resolves to a response whose [message.content] is a
    string or an array of blocks with a [text]. *)
Module AIResponse.
Record block : Type := { text : jsstring }.
Inductive content : Type :=
| ContentString (s : jsstring)
| ContentBlocks (blocks : list block).
Record message_t : Type := { content_of : content }.
Record t : Type := { message : message_t }.
End AIResponse.

(** The object [data] of [handleAnalyze]. *)
Module ResumeData.
Record t : Type := {
  id : jsstring;
  resumePath : jsstring;
  imagePath : jsstring;
  companyName : jsstring;
  jobTitle : jsstring;
  jobDescription : jsstring;
  feedback : json
}.

(** [data] as the object [JSON.stringify] sees: its properties in creation
    order. *)
Definition to_object (d : t) : json :=
  JObject
    [ (str "id", JString (id d));
      (str "resumePath", JString (resumePath d));
      (str "imagePath", JString (imagePath d));
      (str "companyName", JString (companyName d));
      (str "jobTitle", JString (jobTitle d));
      (str "jobDescription", JString (jobDescription d));
      (str "feedback", feedback d) ].

(** [data.feedback = v] *)
Definition set_feedback (d : t) (v : json) : t :=
  {| id := id d; resumePath := resumePath d; imagePath := imagePath d;
     companyName := companyName d; jobTitle := jobTitle d;
     jobDescription := jobDescription d; feedback := v |}.

(** Reading a parsed record back: the seven properties, in this order,
    the first six of them strings. *)
Definition of_object (v : json) : option t :=
  match v with
  | JObject [ (k1, JString a); (k2, JString b); (k3, JString c);
              (k4, JString d); (k5, JString e); (k6, JString f); (k7, g) ] =>
      if jsstring_eqb k1 (str "id") && jsstring_eqb k2 (str "resumePath")
         && jsstring_eqb k3 (str "imagePath") && jsstring_eqb k4 (str "companyName")
         && jsstring_eqb k5 (str "jobTitle") && jsstring_eqb k6 (str "jobDescription")
         && jsstring_eqb k7 (str "feedback")
      then Some {| id := a; resumePath := b; imagePath := c; companyName := d;
                   jobTitle := e; jobDescription := f; feedback := g |}
      else None
  | _ => None
  end.
End ResumeData.

(** ** Effects *)

(** A thrown value: an instance of [Error] with its [message], or
    anything else. *)
Inductive thrown : Type :=
| ErrorInstance (message : jsstring)
| NotAnError.

(** What awaiting a promise gives. *)
Inductive outcome (A : Type) : Type :=
| Resolved (a : A)
| Rejected (e : thrown).
Arguments Rejected {A} e.

(** The React state of the route. *)
Record Session : Type := { isProcessing : bool; statusText : jsstring }.

(** [useState(false)] and [useState(" ")] *)
Definition initial_session : Session :=
  {| isProcessing := false; statusText := str " " |}.

(** The calls of one run that leave the route, with what came back. *)
Inductive event : Type :=
| FsUpload (files : list File.t) (r : outcome (option FSItem.t))
| ConvertPdfToImage (f : File.t) (r : outcome PdfConversionResult.t)
| GenerateUUID (r : outcome jsstring)
| KvSet (key value : jsstring) (r : outcome bool)
| AiFeedback (path instructions : jsstring) (r : outcome (option AIResponse.t))
| Navigate (to : jsstring).

(** The collaborators, which the route imports: they are parameters of
    the run. [ext] is whatever state they keep outside the route; each call
    may depend on it and change it, and may throw. [kv.set] resolves (to a boolean the
    route does not read) when the value is stored and rejects otherwise.
    The two messages are those of the engine's [SyntaxError] and
    [TypeError]. *)
Record Env (ext : Type) : Type := {
  auth_isAuthenticated : bool;
  fs_upload : list File.t -> ext -> outcome (option FSItem.t) * ext;
  convertPdfToImage : File.t -> ext -> outcome PdfConversionResult.t * ext;
  generateUUID : ext -> outcome jsstring * ext;
  prepareInstructions : jsstring -> jsstring -> jsstring;
  kv_set : jsstring -> jsstring -> ext -> outcome bool * ext;
  ai_feedback : jsstring -> jsstring -> ext -> outcome (option AIResponse.t) * ext;
  SyntaxError_message : jsstring -> jsstring;
  TypeError_message : jsstring
}.

(** [l] with [a] added at its end. *)
Fixpoint snoc {A : Type} (l : list A) (a : A) : list A :=
  match l with
  | [] => [a]
  | x :: l' => x :: snoc l' a
  end.

(** The state a run works on: the session, the status texts it has
    shown so far, the calls it has made, and the state of the
    collaborators. *)
Record world (ext : Type) : Type := {
  session : Session;
  shown : list jsstring;
  log : list event;
  external : ext
}.

(** How a statement completes: normally, by [return], or by a throw. *)
Inductive completion (A : Type) : Type :=
| Normal (a : A)
| Return
| Throw (e : thrown).
Arguments Return {A}.
Arguments Throw {A} e.

Definition M (ext A : Type) : Type := world ext -> completion A * world ext.

Section Monad.
Context {ext : Type}.

Definition ret {A} (a : A) : M ext A := fun w => (Normal a, w).

Definition bind {A B} (m : M ext A) (k : A -> M ext B) : M ext B :=
  fun w =>
    match m w with
    | (Normal a, w') => k a w'
    | (Return, w') => (Return, w')
    | (Throw e, w') => (Throw e, w')
    end.

(** [return;] *)
Definition return_ {A} : M ext A := fun w => (Return, w).

Definition throw {A} (e : thrown) : M ext A := fun w => (Throw e, w).

(** [if (b) { m }] *)
Definition when_ (b : bool) (m : M ext unit) : M ext unit :=
  if b then m else ret tt.

(** [try { block } catch (e) { handler e }] *)
Definition try_catch {A} (block : M ext A) (handler : thrown -> M ext A) : M ext A :=
  fun w =>
    match block w with
    | (Throw e, w') => handler e w'
    | r => r
    end.

(** [try { block } catch (e) { handler e } finally { finalizer }]: the
    finalizer runs however the rest completed, and that completion stands
    unless the finalizer itself completes abruptly. *)
Definition try_catch_finally {A} (block : M ext A) (handler : thrown -> M ext A)
           (finalizer : M ext unit) : M ext A :=
  fun w =>
    match try_catch block handler w with
    | (c, w1) =>
        match finalizer w1 with
        | (Normal _, w2) => (c, w2)
        | (Return, w2) => (Return, w2)
        | (Throw e, w2) => (Throw e, w2)
        end
    end.

Definition setIsProcessing (b : bool) : M ext unit :=
  fun w =>
    (Normal tt,
     {| session := {| isProcessing := b; statusText := statusText (session w) |};
        shown := shown w; log := log w; external := external w |}).

Definition setStatusText (s : jsstring) : M ext unit :=
  fun w =>
    (Normal tt,
     {| session := {| isProcessing := isProcessing (session w); statusText := s |};
        shown := snoc (shown w) s; log := log w; external := external w |}).

(** [console.log] and [console.error] leave the state alone. *)
Definition console_log : M ext unit := ret tt.
Definition console_error : M ext unit := ret tt.

(** A call to a collaborator: it runs on the external state, the call is
    logged with its result, and what the collaborator throws is thrown. *)
Definition perform {A} (call : ext -> outcome A * ext) (ev : outcome A -> event)
  : M ext A :=
  fun w =>
    match call (external w) with
    | (r, x') =>
        let w' := {| session := session w; shown := shown w;
                     log := snoc (log w) (ev r); external := x' |} in
        match r with
        | Resolved a => (Normal a, w')
        | Rejected e => (Throw e, w')
        end
    end.

(** [await call]: the same for a promise, whose rejection is thrown. *)
Definition await {A} (call : ext -> outcome A * ext) (ev : outcome A -> event)
  : M ext A :=
  perform call ev.

(** The promise of an [async] function with no value to return. *)
Definition async (body : M ext unit) (w : world ext) : outcome unit * world ext :=
  match body w with
  | (Normal _, w') => (Resolved tt, w')
  | (Return, w') => (Resolved tt, w')
  | (Throw e, w') => (Rejected e, w')
  end.

End Monad.

Declare Scope js_scope.
Delimit Scope js_scope with js.
Notation "x <- m ;; k" := (bind m (fun x => k))
  (at level 61, m at next level, right associativity) : js_scope.
Notation "m ;; k" := (bind m (fun _ => k))
  (at level 61, right associativity) : js_scope.

(** [error instanceof Error ? error.message : fallback] *)
Definition message_or (e : thrown) (fallback : jsstring) : jsstring :=
  match e with
  | ErrorInstance m => m
  | NotAnError => fallback
  end.

(** [s || fallback] for an optional string: [undefined] and the empty
    string are falsy. *)
Definition or_default (s : option jsstring) (fallback : jsstring) : jsstring :=
  match s with
  | Some (c :: s') => c :: s'
  | Some [] => fallback
  | None => fallback
  end.

(** The text of a response's content: the string itself, or the [text]
    of the first block; an empty array has no first block. *)
Definition content_text (c : AIResponse.content) : option jsstring :=
  match c with
  | AIResponse.ContentString s => Some s
  | AIResponse.ContentBlocks [] => None
  | AIResponse.ContentBlocks (b :: _) => Some (AIResponse.text b)
  end.

(** ** [handleAnalyze] *)

Section Upload.
Context {ext : Type} (E : Env ext).
Local Open Scope js_scope.

(** [typeof content === "string" ? content : content[0].text]; reading
    [text] of the missing first element of an empty array throws a
    [TypeError]. *)
Definition feedbackText (c : AIResponse.content) : M ext jsstring :=
  match content_text c with
  | Some s => ret s
  | None => throw (ErrorInstance (TypeError_message E))
  end.

Definition JSON_parse (text : jsstring) : M ext json :=
  match parse text with
  | Some v => ret v
  | None => throw (ErrorInstance (SyntaxError_message E text))
  end.

Definition navigate (to : jsstring) : M ext unit :=
  perform (fun x => (Resolved tt, x)) (fun _ => Navigate to).

Definition handleAnalyze_body
           (companyName jobTitle jobDescription : jsstring) (file : File.t)
  : M ext unit :=
  when_ (negb (auth_isAuthenticated E))
    (setStatusText (str "Error: Please sign in to upload files") ;; return_) ;;
  when_ (negb (includes (File.type file) (str "pdf")))
    (setStatusText (str "Error: Please upload a PDF file") ;; return_) ;;
  console_log ;;
  setStatusText (str "Uploading the file...") ;;
  uploadedFile <-
    try_catch
      (uploadedFile <- await (fs_upload E [file]) (FsUpload [file]) ;;
       console_log ;;
       match uploadedFile with
       | None =>
           setStatusText (str "Error: Failed to upload file - no result returned") ;;
           return_
       | Some item => ret item
       end)
      (fun uploadError =>
         console_error ;;
         setStatusText (str "Error: Failed to upload file - "
                        ++ message_or uploadError (str "Unknown error")) ;;
         return_) ;;
  setStatusText (str "Converting to image...") ;;
  imageFile <- await (convertPdfToImage E file) (ConvertPdfToImage file) ;;
  console_log ;;
  imageFile_file <-
    match PdfConversionResult.file imageFile with
    | None =>
        console_error ;;
        setStatusText (str "Error: Failed to convert PDF to image - "
                       ++ or_default (PdfConversionResult.error imageFile)
                                     (str "Unknown error")) ;;
        return_
    | Some f => ret f
    end ;;
  console_log ;;
  when_ (File.size imageFile_file =? 0)%N
    (setStatusText (str "Error: Converted image file is empty") ;; return_) ;;
  setStatusText (str "Uploading the image...") ;;
  console_log ;;
  uploadedImage <-
    try_catch
      (uploadedImage <- await (fs_upload E [imageFile_file]) (FsUpload [imageFile_file]) ;;
       console_log ;;
       match uploadedImage with
       | None =>
           setStatusText (str "Error: Failed to upload image - no result returned") ;;
           return_
       | Some item => ret item
       end)
      (fun uploadError =>
         console_error ;;
         setStatusText (str "Error: Failed to upload image - "
                        ++ message_or uploadError (str "Unknown error")) ;;
         return_) ;;
  setStatusText (str "Preparing data...") ;;
  uuid <- perform (generateUUID E) GenerateUUID ;;
  let data :=
    {| ResumeData.id := uuid;
       ResumeData.resumePath := FSItem.path uploadedFile;
       ResumeData.imagePath := FSItem.path uploadedImage;
       ResumeData.companyName := companyName;
       ResumeData.jobTitle := jobTitle;
       ResumeData.jobDescription := jobDescription;
       ResumeData.feedback := JString [] |} in
  let key := str "resume:" ++ uuid in
  let draft := stringify (ResumeData.to_object data) in
  await (kv_set E key draft) (KvSet key draft) ;;
  setStatusText (str "Analyzing...") ;;
  let instructions := prepareInstructions E jobTitle jobDescription in
  feedback <- await (ai_feedback E (FSItem.path uploadedFile) instructions)
                    (AiFeedback (FSItem.path uploadedFile) instructions) ;;
  response <-
    match feedback with
    | None => setStatusText (str "Error: Failed to analyze resume") ;; return_
    | Some r => ret r
    end ;;
  text <- feedbackText (AIResponse.content_of (AIResponse.message response)) ;;
  parsed <- JSON_parse text ;;
  let data := ResumeData.set_feedback data parsed in
  let final := stringify (ResumeData.to_object data) in
  await (kv_set E key final) (KvSet key final) ;;
  setStatusText (str "Analysis complete, redirecting...") ;;
  navigate (str "/resume/" ++ uuid) ;;
  console_log.

Definition handleAnalyze
           (companyName jobTitle jobDescription : jsstring) (file : File.t)
  : world ext -> outcome unit * world ext :=
  async
    (setIsProcessing true ;;
     try_catch_finally
       (handleAnalyze_body companyName jobTitle jobDescription file)
       (fun error =>
          console_error ;;
          setStatusText (str "Error: " ++ message_or error (str "Unknown error occurred")))
       (setIsProcessing false)).

(** One run: the route is in session [s], the collaborators in state [x],
    and nothing has been shown or logged yet. *)
Definition run (companyName jobTitle jobDescription : jsstring) (file : File.t)
           (s : Session) (x : ext) : outcome unit * world ext :=
  handleAnalyze companyName jobTitle jobDescription file
                {| session := s; shown := []; log := []; external := x |}.

End Upload.

(** What the page shows in its heading. *)
Definition idle_heading : jsstring :=
  str "Drop your resume for an ATS score and improvement tips".

Definition heading (s : Session) : jsstring :=
  if isProcessing s then statusText s else idle_heading.

(** ** Observing a run *)

(** The arguments of the [fs.upload] calls, in order. *)
Fixpoint uploads (l : list event) : list (list File.t) :=
  match l with
  | [] => []
  | FsUpload files _ :: l' => files :: uploads l'
  | _ :: l' => uploads l'
  end.

(** The [fs.upload] calls that resolved to an item. *)
Fixpoint successful_uploads (l : list event) : list FSItem.t :=
  match l with
  | [] => []
  | FsUpload _ (Resolved (Some item)) :: l' => item :: successful_uploads l'
  | _ :: l' => successful_uploads l'
  end.

(** The key and value of the [kv.set] calls, in order. *)
Fixpoint kv_sets (l : list event) : list (jsstring * jsstring) :=
  match l with
  | [] => []
  | KvSet k v _ :: l' => (k, v) :: kv_sets l'
  | _ :: l' => kv_sets l'
  end.

Fixpoint navigations (l : list event) : list jsstring :=
  match l with
  | [] => []
  | Navigate to :: l' => to :: navigations l'
  | _ :: l' => navigations l'
  end.

(** The value the Record Store holds under [key] after the logged calls:
    that of the last [kv.set] on [key] that resolved. *)
Fixpoint persisted (key : jsstring) (l : list event) : option jsstring :=
  match l with
  | [] => None
  | e :: l' =>
      match persisted key l' with
      | Some v => Some v
      | None =>
          match e with
          | KvSet k v (Resolved _) => if jsstring_eqb k key then Some v else None
          | _ => None
          end
      end
  end.

(** The texts [handleAnalyze] shows while it is working. *)
Definition phase_texts : list jsstring :=
  [ str "Uploading the file..."; str "Converting to image...";
    str "Uploading the image..."; str "Preparing data...";
    str "Analyzing..."; str "Analysis complete, redirecting..." ].

(** ** Well-formed values *)

(** [k1] is enumerated before [k2]: they differ, an array index comes
    before a larger one and before every other key. *)
Definition key_before (k1 k2 : jsstring) : bool :=
  negb (jsstring_eqb k1 k2) &&
  match array_index k1, array_index k2 with
  | Some i, Some j => (i <? j)%N
  | Some _, None => true
  | None, Some _ => false
  | None, None => true
  end.

Fixpoint keys_ordered (ks : list jsstring) : bool :=
  match ks with
  | [] => true
  | k :: ks' => forallb (key_before k) ks' && keys_ordered ks'
  end.

(** The values that a JSON text holds as they are: the numbers are finite
    and other than [-0], and the properties of an object are distinct and
    in enumeration order, as they are in every object a program holds. *)
Fixpoint well_formed (v : json) : bool :=
  match v with
  | JNull | JBool _ | JString _ => true
  | JNumber n => json_number n
  | JArray vs => forallb well_formed vs
  | JObject kvs =>
      keys_ordered (map fst kvs) &&
      forallb (fun kv => match kv with (_, x) => well_formed x end) kvs
  end.

(** The properties of the objects of [v] are distinct and in enumeration
    order. *)
Fixpoint ordered (v : json) : bool :=
  match v with
  | JNull | JBool _ | JNumber _ | JString _ => true
  | JArray vs => forallb ordered vs
  | JObject kvs =>
      keys_ordered (map fst kvs) &&
      forallb (fun kv => match kv with (_, x) => ordered x end) kvs
  end.

(** The numbers of [v] are finite and other than [-0]. *)
Fixpoint plain_numbers (v : json) : bool :=
  match v with
  | JNull | JBool _ | JString _ => true
  | JNumber n => json_number n
  | JArray vs => forallb plain_numbers vs
  | JObject kvs =>
      forallb (fun kv => match kv with (_, x) => plain_numbers x end) kvs
  end.

Definition frame_ordered (f : frame) : bool :=
  match f with
  | InArray done => forallb ordered done
  | InObject o _ => ordered (JObject o)
  end.

Definition values_ordered (o : js_object) : bool :=
  forallb (fun kv => match kv with (_, x) => ordered x end) o.

(** ** Scenarios *)

Definition resume_pdf : File.t :=
  {| File.name := str "resume.pdf"; File.size := 1024;
     File.type := str "application/pdf" |}.

Definition notes_txt : File.t :=
  {| File.name := str "notes.txt"; File.size := 12;
     File.type := str "text/plain" |}.


Definition page_png (size : N) : File.t :=
  {| File.name := str "resume.png"; File.size := size;
     File.type := str "image/png" |}.

Definition response (c : AIResponse.content) : AIResponse.t :=
  {| AIResponse.message := {| AIResponse.content_of := c |} |}.

(** The text of the scenarios of the specification: an object with the
    one property [score]. *)
Definition score_text (digits : string) : jsstring :=
  [123; 34]%N ++ str "score" ++ [34; 58]%N ++ str digits ++ [125]%N.

Definition scenario_uuid : jsstring :=
  str "0b5c6e0e-6c0a-4f5e-9d0c-2f3a1b7c8d9e".

(** Collaborators that all succeed, but for what the parameters say: the
    Auth Gate reports [auth], the Rasterizer makes an image of [size]
    bytes, and the Feedback Service answers [answer]. The Blob Store names
    an upload after the file. *)
Definition scenario (auth : bool) (size : N) (answer : option AIResponse.t)
  : Env unit :=
  {| auth_isAuthenticated := auth;
     fs_upload := fun files x =>
       (Resolved
          (Some {| FSItem.path :=
                     str "/store/" ++
                     match files with
                     | f :: _ => File.name f
                     | [] => []
                     end |}), x);
     convertPdfToImage := fun _ x =>
       (Resolved {| PdfConversionResult.file := Some (page_png size);
                    PdfConversionResult.error := None |}, x);
     generateUUID := fun x => (Resolved scenario_uuid, x);
     prepareInstructions := fun title description => title ++ description;
     kv_set := fun _ _ x => (Resolved true, x);
     ai_feedback := fun _ _ x => (Resolved answer, x);
     SyntaxError_message := fun _ => str "Unexpected token";
     TypeError_message := str "Cannot read properties of undefined" |}.

(** One run of a scenario: a first visit of the page, with the file
    [file] for a position. *)
Definition scenario_run_with (file : File.t) (E : Env unit) : world unit :=
  snd (run E (str "Acme") (str "Engineer") (str "Builds things")
           file initial_session tt).

Definition scenario_run : Env unit -> world unit :=
  scenario_run_with resume_pdf.

(** The record of a scenario that got as far as writing it. *)
Definition scenario_record (feedback : json) : ResumeData.t :=
  {| ResumeData.id := scenario_uuid;
     ResumeData.resumePath := str "/store/resume.pdf";
     ResumeData.imagePath := str "/store/resume.png";
     ResumeData.companyName := str "Acme";
     ResumeData.jobTitle := str "Engineer";
     ResumeData.jobDescription := str "Builds things";
     ResumeData.feedback := feedback |}.

(** A feedback with a nested object, an array, an array index for a key,
    a number with a fraction ([80.5]) and a negative one. *)
Definition sample_feedback : json :=
  JObject
    [ (str "0", JNull);
      (str "overallScore", JNumber (decimal_value false 805 (-1)));
      (str "ATS",
       JObject [ (str "score", JNumber (integer (-1)));
                 (str "tips", JArray [JString (str "Use numbers"); JBool true]) ]) ].

(** ** Answering in blocks *)



(** ** The order and the results of the calls *)

Inductive call_kind : Type :=
| Upload | Convert | Uuid | KvWrite | Feedback | Navigation.

Definition kind_of (e : event) : call_kind :=
  match e with
  | FsUpload _ _ => Upload
  | ConvertPdfToImage _ _ => Convert
  | GenerateUUID _ => Uuid
  | KvSet _ _ _ => KvWrite
  | AiFeedback _ _ _ => Feedback
  | Navigate _ => Navigation
  end.

(** The calls of [handleAnalyze] in the order of its text. *)
Definition call_order : list call_kind :=
  [ Upload; Convert; Upload; Uuid; KvWrite; Feedback; KvWrite; Navigation ].

(** A call whose result makes [handleAnalyze] stop: it threw, or it
    resolved to what one of the tests of the route turns down (no item for
    an upload, no image or an empty one for the conversion, no response
    for the feedback). *)
Definition stops_run (e : event) : bool :=
  match e with
  | FsUpload _ (Resolved (Some _)) => false
  | FsUpload _ _ => true
  | ConvertPdfToImage _ (Resolved result) =>
      match PdfConversionResult.file result with
      | Some image => (File.size image =? 0)%N
      | None => true
      end
  | ConvertPdfToImage _ (Rejected _) => true
  | GenerateUUID (Resolved _) => false
  | GenerateUUID (Rejected _) => true
  | KvSet _ _ (Resolved _) => false
  | KvSet _ _ (Rejected _) => true
  | AiFeedback _ _ (Resolved (Some _)) => false
  | AiFeedback _ _ _ => true
  | Navigate _ => false
  end.

(** What a call outside the two [try] blocks of the uploads threw. *)
Definition thrown_to_outer_catch (e : event) : option thrown :=
  match e with
  | ConvertPdfToImage _ (Rejected t) => Some t
  | GenerateUUID (Rejected t) => Some t
  | KvSet _ _ (Rejected t) => Some t
  | AiFeedback _ _ (Rejected t) => Some t
  | _ => None
  end.

(** ** The rest of the route: selecting a file, submitting, rendering *)

(** [handleFileSelect file]: [setFile(file)], on the state [useState(null)]
    holds. *)
Definition handleFileSelect (file : option File.t) (current : option File.t)
  : option File.t :=
  file.

(** The entries of a [FormData], name and value, in order. *)
Definition FormData := list (jsstring * jsstring).

(** [formData.get(name)]: the value of the first entry with that name, or
    [null]. *)
Fixpoint FormData_get (name : jsstring) (entries : FormData) : option jsstring :=
  match entries with
  | [] => None
  | (n, value) :: entries' =>
      if jsstring_eqb n name then Some value else FormData_get name entries'
  end.

(** A submit event: what [e.currentTarget.closest("form")] finds, as the
    entries [new FormData(form)] holds for it. *)
Record SubmitEvent : Type := { closest_form : option FormData }.

(** The entries of the form the route renders: its three named controls in
    document order, then whatever [FileUploader], which comes last in the
    form, contributes. *)
Definition upload_form (companyName jobTitle jobDescription : jsstring)
           (uploader : FormData) : FormData :=
  (str "company-name", companyName)
  :: (str "job-title", jobTitle)
  :: (str "job-description", jobDescription)
  :: uploader.

(** What the page shows: the heading, the scan animation, the form. *)
Record View : Type := {
  view_heading : jsstring;
  view_scan : bool;
  view_form : bool
}.

Definition render (s : Session) : View :=
  {| view_heading := heading s;
     view_scan := isProcessing s;
     view_form := negb (isProcessing s) |}.

Section Submit.
Context {ext : Type} (E : Env ext).

(** [handleSubmit e], with [file] the selected file, in session [s].
    The default action is always prevented (the first component of the
    result), and the promise of [handleAnalyze] is not awaited. When the
    form lacks one of the three fields, [get] gives [null] where the route
    says [string]: that run is not modelled, and the result is [None]. *)
Definition handleSubmit (e : SubmitEvent) (file : option File.t)
           (s : Session) (x : ext) : option (bool * world ext) :=
  let unchanged := {| session := s; shown := []; log := []; external := x |} in
  match closest_form e with
  | None => Some (true, unchanged)
  | Some formData =>
      let companyName := FormData_get (str "company-name") formData in
      let jobTitle := FormData_get (str "job-title") formData in
      let jobDescription := FormData_get (str "job-description") formData in
      match file with
      | None => Some (true, unchanged)
      | Some f =>
          match companyName, jobTitle, jobDescription with
          | Some c, Some t, Some d => Some (true, snd (run E c t d f s x))
          | _, _, _ => None
          end
      end
  end.

End Submit.

(** ** Scenarios with a failing collaborator *)

Definition unavailable : thrown :=
  ErrorInstance (str "Service unavailable").

(** The collaborators of [E], but for the calls of kind [k], which throw;
    the navigation is no collaborator, and does not. *)
Definition failing (k : call_kind) (E : Env unit) : Env unit :=
  {| auth_isAuthenticated := auth_isAuthenticated E;
     fs_upload := fun files x =>
       match k with
       | Upload => (Rejected unavailable, x)
       | _ => fs_upload E files x
       end;
     convertPdfToImage := fun f x =>
       match k with
       | Convert => (Rejected unavailable, x)
       | _ => convertPdfToImage E f x
       end;
     generateUUID := fun x =>
       match k with
       | Uuid => (Rejected unavailable, x)
       | _ => generateUUID E x
       end;
     prepareInstructions := prepareInstructions E;
     kv_set := fun key value x =>
       match k with
       | KvWrite => (Rejected unavailable, x)
       | _ => kv_set E key value x
       end;
     ai_feedback := fun path instructions x =>
       match k with
       | Feedback => (Rejected unavailable, x)
       | _ => ai_feedback E path instructions x
       end;
     SyntaxError_message := SyntaxError_message E;
     TypeError_message := TypeError_message E |}.

Definition another_uuid : jsstring :=
  str "7d1f2a3b-4c5d-4e6f-8a9b-0c1d2e3f4a5b".

(** The collaborators of [E], generating the identifier [uuid]. *)
Definition generating (uuid : jsstring) (E : Env unit) : Env unit :=
  {| auth_isAuthenticated := auth_isAuthenticated E;
     fs_upload := fs_upload E;
     convertPdfToImage := convertPdfToImage E;
     generateUUID := fun x => (Resolved uuid, x);
     prepareInstructions := prepareInstructions E;
     kv_set := kv_set E;
     ai_feedback := ai_feedback E;
     SyntaxError_message := SyntaxError_message E;
     TypeError_message := TypeError_message E |}.

(** The submission of the form of the scenarios. *)
Definition scenario_submit : SubmitEvent :=
  {| closest_form :=
       Some (upload_form (str "Acme") (str "Engineer") (str "Builds things") []) |}.

(** ** Proof tools *)

Unset Implicit Arguments.

Ltac Zify.zify_post_hook ::= Z.to_euclidean_division_equations.

(** Induction on a value, with the property at hand for the elements of an
    array and for the values of the properties of an object. *)
Section JsonInduction.
Variable P : json -> Prop.
Hypothesis Hnull : P JNull.
Hypothesis Hbool : forall b, P (JBool b).
Hypothesis Hnumber : forall n, P (JNumber n).
Hypothesis Hstring : forall s, P (JString s).
Hypothesis Harray : forall vs, Forall P vs -> P (JArray vs).
Hypothesis Hobject :
  forall kvs, Forall (fun kv => P (snd kv)) kvs -> P (JObject kvs).

Fixpoint json_nested_ind (v : json) : P v :=
  match v with
  | JNull => Hnull
  | JBool b => Hbool b
  | JNumber n => Hnumber n
  | JString s => Hstring s
  | JArray vs =>
      Harray vs
        ((fix all (l : list json) : Forall P l :=
            match l with
            | [] => Forall_nil P
            | x :: l' => Forall_cons x (json_nested_ind x) (all l')
            end) vs)
  | JObject kvs =>
      Hobject kvs
        ((fix all (l : list (jsstring * json))
            : Forall (fun kv => P (snd kv)) l :=
            match l with
            | [] => Forall_nil _
            | kv :: l' =>
                Forall_cons kv (json_nested_ind (snd kv)) (all l')
            end) kvs)
  end.
End JsonInduction.

(** The lexer reads the text of [v] back into its tokens. *)
Definition lexes_back (v : json) : Prop :=
  forall rest ts,
    value_end rest = true ->
    lex rest = Some ts ->
    lex (stringify v ++ rest) = Some (tokens v ++ ts).

(** The parser reads the tokens of [v] back into [v]. *)
Definition reads_back (v : json) : Prop :=
  forall stack ts, parse_value stack (tokens v ++ ts) = parse_after stack v ts.

(** The members of an object after the first. *)
Definition more_members (kvs : list (jsstring * json)) : list token :=
  flat_map (fun kv => match kv with
                      | (k, x) => TComma :: TString k :: TColon :: tokens x
                      end) kvs.

(** Unfolding the monad of a run, and the projections of the records
    that are written out. *)
Ltac run_simpl :=
  cbv beta iota zeta delta
    [run handleAnalyze async try_catch_finally try_catch handleAnalyze_body
     bind when_ await perform navigate setStatusText setIsProcessing
     console_log console_error ret return_ throw feedbackText JSON_parse
     session shown log external isProcessing statusText snoc negb fst snd].


(** One step: a case analysis on the next thing the run depends on (what a
    collaborator answers, or the value of a test). *)
Ltac run_step_with simplify :=
  match goal with
  | |- context [match ?x with _ => _ end] =>
      lazymatch x with
      | context [match _ with _ => _ end] => fail
      | _ => destruct x eqn:?; simplify
      end
  end.

Ltac run_step := run_step_with run_simpl.

(** All the paths of the run the goal is about: the run is named, so
    that each case analysis goes through it once, and in each case it is
    replaced by the promise and the state it ends with. *)
Ltac run_cases :=
  match goal with
  | |- context [run ?E ?c ?t ?d ?f ?s ?x] =>
      let r := fresh "r" in
      let Hr := fresh "Hr" in
      let Q := fresh "Q" in
      remember (run E c t d f s x) as r eqn:Hr;
      pattern r;
      match goal with |- ?P r => set (Q := P) end;
      revert Hr; run_simpl; repeat run_step;
      intros Hr; subst r; subst Q; cbv beta; run_simpl
  end.

(** An event known to be in a log that is written out. *)
Ltac in_log H :=
  cbn [In] in H;
  repeat (destruct H as [H | H]; [try discriminate H |]);
  try contradiction.

(** An event known to be in a log that is written out, empty or not. *)
Ltac in_calls H :=
  cbn [In] in H; try contradiction; in_log H.

(* ================================================================== *)
(** * Part II: properties                                              *)
(* ================================================================== *)

(** ** Strings *)

Lemma jsstring_eqb_refl (a : jsstring) : jsstring_eqb a a = true.
Proof.
  induction a as [|c a IH]; [reflexivity|].
  cbn [jsstring_eqb]. now rewrite N.eqb_refl, IH.
Qed.

Lemma jsstring_eqb_eq (a b : jsstring) : jsstring_eqb a b = true <-> a = b.
Proof.
  split; [|intros ->; apply jsstring_eqb_refl].
  revert b; induction a as [|c a IH]; intros [|d b] H;
    try discriminate H; [reflexivity|].
  cbn [jsstring_eqb] in H. apply andb_true_iff in H as [Hc Hr].
  apply N.eqb_eq in Hc. apply IH in Hr. now subst.
Qed.

Lemma startsWith_app (p s : jsstring) : startsWith (p ++ s) p = true.
Proof.
  induction p as [|c p IH]; [reflexivity|].
  cbn [app startsWith]. now rewrite N.eqb_refl, IH.
Qed.



(** ** [JSON.parse] reads back what [JSON.stringify] writes *)

(** *** Numbers: rounding *)

Lemma uint_beq_refl (u : Decimal.uint) : Decimal.uint_beq u u = true.
Proof. now apply Decimal.internal_uint_dec_lb. Qed.

Lemma to_uint_normal (p : positive) :
  Decimal.unorm (Pos.to_uint p) = Pos.to_uint p.
Proof.
  rewrite <- DecimalPos.Unsigned.to_of, DecimalPos.Unsigned.of_to.
  reflexivity.
Qed.

Section Rounding.
Local Open Scope Z_scope.

Lemma nearest_even_exact (m den : Z) :
  0 < den -> nearest_even (m * den) den = m.
Proof.
  intros Hden. unfold nearest_even.
  rewrite Z.mod_mul, Z.div_mul by lia.
  destruct (2 * 0 <? den) eqn:H; [reflexivity | apply Z.ltb_ge in H; lia].
Qed.

Lemma denominator_at_pos (q : positive) (e : Z) : 0 < denominator_at q e.
Proof.
  unfold denominator_at. apply Z.mul_pos_pos; [lia |].
  apply Z.pow_pos_nonneg; lia.
Qed.

Lemma numerator_at_pos (p : positive) (e : Z) : 0 < numerator_at p e.
Proof.
  unfold numerator_at. apply Z.mul_pos_pos; [lia |].
  apply Z.pow_pos_nonneg; lia.
Qed.

(** The quotient at a smaller exponent is the quotient at a larger one,
    times the power of two between them. *)
Lemma scale_exponent (p q : positive) (e e' : Z) :
  e' <= e ->
  numerator_at p e' * denominator_at q e
  = 2 ^ (e - e') * (numerator_at p e * denominator_at q e').
Proof.
  intros Hle. unfold numerator_at, denominator_at.
  transitivity (Z.pos p * Z.pos q * 2 ^ (Z.max 0 (- e') + Z.max 0 e)).
  - rewrite Z.pow_add_r by lia. ring.
  - replace (Z.max 0 (- e') + Z.max 0 e)
      with (e - e' + Z.max 0 (- e) + Z.max 0 e') by lia.
    rewrite !Z.pow_add_r by lia. ring.
Qed.

Lemma pow2_double (a : Z) : 1 <= a -> 2 * 2 ^ (a - 1) = 2 ^ a.
Proof.
  intros Ha. replace a with (1 + (a - 1)) at 2 by lia.
  rewrite Z.pow_add_r by lia. reflexivity.
Qed.

Lemma pow2_ge_2 (a : Z) : 1 <= a -> 2 <= 2 ^ a.
Proof.
  intros Ha. change 2 with (2 ^ 1) at 1. apply Z.pow_le_mono_r; lia.
Qed.

(** At that exponent the quotient has 53 bits. *)
Lemma free_exponent_bounds (p q : positive) :
  let e := free_exponent p q in
  2 ^ 52 * denominator_at q e <= numerator_at p e < 2 ^ 53 * denominator_at q e.
Proof.
  unfold free_exponent.
  set (lp := Z.log2 (Z.pos p)). set (lq := Z.log2 (Z.pos q)).
  set (e1 := lp - lq - 53).
  assert (Hlp : 2 ^ lp <= Z.pos p < 2 ^ (lp + 1)).
  { pose proof (Z.log2_spec (Z.pos p) ltac:(lia)) as H.
    rewrite <- Z.add_1_r in H. exact H. }
  assert (Hlq : 2 ^ lq <= Z.pos q < 2 ^ (lq + 1)).
  { pose proof (Z.log2_spec (Z.pos q) ltac:(lia)) as H.
    rewrite <- Z.add_1_r in H. exact H. }
  assert (Hlp0 : 0 <= lp) by apply Z.log2_nonneg.
  assert (Hlq0 : 0 <= lq) by apply Z.log2_nonneg.
  assert (H1 : 2 ^ 52 * denominator_at q e1 <= numerator_at p e1
               < 2 ^ 54 * denominator_at q e1).
  { unfold numerator_at, denominator_at.
    set (a := Z.max 0 (- e1)). set (b := Z.max 0 e1).
    assert (Ha : 0 <= a) by lia. assert (Hb : 0 <= b) by lia.
    assert (Hpa : 0 < 2 ^ a) by (apply Z.pow_pos_nonneg; lia).
    assert (Hpb : 0 < 2 ^ b) by (apply Z.pow_pos_nonneg; lia).
    assert (Hlow : 2 ^ (lq + 1) * 2 ^ 52 * 2 ^ b = 2 ^ lp * 2 ^ a).
    { rewrite <- !Z.pow_add_r by lia. f_equal. lia. }
    assert (Hhigh : 2 ^ (lp + 1) * 2 ^ a = 2 ^ lq * 2 ^ 54 * 2 ^ b).
    { rewrite <- !Z.pow_add_r by lia. f_equal. lia. }
    split.
    - apply Z.le_trans with (2 ^ (lq + 1) * 2 ^ 52 * 2 ^ b).
      + apply Z.lt_le_incl.
        replace (2 ^ 52 * (Z.pos q * 2 ^ b)) with (Z.pos q * (2 ^ 52 * 2 ^ b)) by ring.
        replace (2 ^ (lq + 1) * 2 ^ 52 * 2 ^ b)
          with (2 ^ (lq + 1) * (2 ^ 52 * 2 ^ b)) by ring.
        apply Z.mul_lt_mono_pos_r; [lia | lia].
      + rewrite Hlow. apply Z.mul_le_mono_nonneg_r; lia.
    - apply Z.lt_le_trans with (2 ^ (lp + 1) * 2 ^ a).
      + apply Z.mul_lt_mono_pos_r; lia.
      + rewrite Hhigh.
        replace (2 ^ 54 * (Z.pos q * 2 ^ b)) with (Z.pos q * 2 ^ 54 * 2 ^ b) by ring.
        apply Z.mul_le_mono_nonneg_r; [lia |].
        apply Z.mul_le_mono_nonneg_r; lia. }
  pose proof (denominator_at_pos q e1) as Hd1.
  destruct (numerator_at p e1 / denominator_at q e1 <? 2 ^ 53) eqn:Hlt.
  - apply Z.ltb_lt in Hlt. split; [apply H1 |].
    apply Z.nle_gt. intros Hge.
    rewrite Z.mul_comm in Hge.
    apply (Z.div_le_lower_bound _ _ _ Hd1) in Hge. lia.
  - apply Z.ltb_ge in Hlt.
    assert (Hge : 2 ^ 53 * denominator_at q e1 <= numerator_at p e1).
    { pose proof (Z.mul_div_le (numerator_at p e1) _ Hd1).
      assert (denominator_at q e1 * 2 ^ 53
              <= denominator_at q e1 * (numerator_at p e1 / denominator_at q e1))
        by (apply Z.mul_le_mono_nonneg_l; lia).
      lia. }
    pose proof (scale_exponent p q (e1 + 1) e1 ltac:(lia)) as Hs.
    replace (e1 + 1 - e1) with 1 in Hs by lia. change (2 ^ 1) with 2 in Hs.
    pose proof (denominator_at_pos q (e1 + 1)) as Hd2.
    pose proof (numerator_at_pos p (e1 + 1)) as Hn2.
    split; nia.
Qed.

(** The exponent of a quotient that is below [2^53 * 2^e] is at most
    [e], and that of one that is at least [2^52 * 2^e] is at least [e]. *)
Lemma free_exponent_le (p q : positive) (e : Z) :
  numerator_at p e < 2 ^ 53 * denominator_at q e ->
  free_exponent p q <= e.
Proof.
  intros Hupper. apply Z.nlt_ge. intros Hlt.
  pose proof (free_exponent_bounds p q) as [Hlow _]. cbv zeta in Hlow.
  set (e2 := free_exponent p q) in *.
  pose proof (scale_exponent p q e2 e ltac:(lia)) as Hs.
  pose proof (pow2_ge_2 (e2 - e) ltac:(lia)) as H2.
  pose proof (denominator_at_pos q e). pose proof (denominator_at_pos q e2).
  set (t := 2 ^ (e2 - e)) in *.
  set (n := numerator_at p e) in *. set (n2 := numerator_at p e2) in *.
  set (d := denominator_at q e) in *. set (d2 := denominator_at q e2) in *.
  assert (2 ^ 52 * d2 * d <= n2 * d) by (apply Z.mul_le_mono_nonneg_r; lia).
  assert (2 * (n2 * d) <= t * (n2 * d)) by (apply Z.mul_le_mono_nonneg_r; nia).
  assert (n * d2 < 2 ^ 53 * d * d2) by (apply Z.mul_lt_mono_pos_r; lia).
  lia.
Qed.

Lemma free_exponent_ge (p q : positive) (e : Z) :
  2 ^ 52 * denominator_at q e <= numerator_at p e ->
  e <= free_exponent p q.
Proof.
  intros Hlower. apply Z.nlt_ge. intros Hlt.
  pose proof (free_exponent_bounds p q) as [_ Hup]. cbv zeta in Hup.
  set (e2 := free_exponent p q) in *.
  pose proof (scale_exponent p q e e2 ltac:(lia)) as Hs.
  pose proof (pow2_ge_2 (e - e2) ltac:(lia)) as H2.
  pose proof (denominator_at_pos q e). pose proof (denominator_at_pos q e2).
  set (t := 2 ^ (e - e2)) in *.
  set (n := numerator_at p e) in *. set (n2 := numerator_at p e2) in *.
  set (d := denominator_at q e) in *. set (d2 := denominator_at q e2) in *.
  assert (2 ^ 52 * d * d2 <= n * d2) by (apply Z.mul_le_mono_nonneg_r; lia).
  assert (2 * (n * d2) <= t * (n * d2)) by (apply Z.mul_le_mono_nonneg_r; nia).
  assert (n2 * d < 2 ^ 53 * d2 * d) by (apply Z.mul_lt_mono_pos_r; lia).
  lia.
Qed.

(** A quotient that is a Number value is rounded to it. *)
Lemma round_ratio_exact (negative : bool) (p q m : positive) (e : Z) :
  is_number (Finite negative m e) = true ->
  numerator_at p e = Z.pos m * denominator_at q e ->
  round_ratio negative p q = Finite negative m e.
Proof.
  intros Hn Hexact. cbn [is_number] in Hn.
  apply andb_true_iff in Hn as [Hm Hshape]. apply Z.ltb_lt in Hm.
  pose proof (denominator_at_pos q e) as Hden.
  assert (He : exponent_of p q = e /\ e <= 971).
  { unfold exponent_of.
    pose proof (free_exponent_le p q e ltac:(nia)) as Hle.
    apply orb_true_iff in Hshape as [Hnormal | Hsub].
    - apply andb_true_iff in Hnormal as [Hnormal Hmax].
      apply andb_true_iff in Hnormal as [Hmin Hemin].
      apply Z.leb_le in Hmin, Hemin, Hmax.
      pose proof (free_exponent_ge p q e ltac:(nia)). lia.
    - apply Z.eqb_eq in Hsub. lia. }
  destruct He as [He Hmax]. unfold round_ratio. rewrite He, Hexact.
  rewrite nearest_even_exact by exact Hden.
  destruct (Z.pos m =? 2 ^ 53) eqn:H53; [apply Z.eqb_eq in H53; lia |].
  unfold make_number. destruct (971 <? e) eqn:H971;
    [apply Z.ltb_lt in H971; lia | reflexivity].
Qed.

Lemma nearest_even_bounds (num den : Z) :
  0 < den ->
  num / den <= nearest_even num den <= num / den + 1.
Proof.
  intros Hden. unfold nearest_even.
  repeat match goal with
         | |- context [if ?b then _ else _] => destruct b
         end; lia.
Qed.

Lemma make_number_is_number (negative : bool) (m e : Z) :
  m < 2 ^ 53 ->
  (2 ^ 52 <= m /\ -1074 <= e) \/ e = -1074 ->
  is_number (make_number negative m e) = true.
Proof.
  intros Hm Hshape. unfold make_number.
  destruct (971 <? e) eqn:He; [reflexivity |]. apply Z.ltb_ge in He.
  destruct m as [|m|m]; try reflexivity.
  cbn [is_number]. apply andb_true_iff. split; [now apply Z.ltb_lt |].
  apply orb_true_iff. destruct Hshape as [[Hlow Hmin] | ->].
  - left. rewrite !andb_true_iff. repeat split; now apply Z.leb_le.
  - right. reflexivity.
Qed.

(** Rounding gives a Number value. *)
Lemma round_ratio_is_number (negative : bool) (p q : positive) :
  is_number (round_ratio negative p q) = true.
Proof.
  unfold round_ratio, exponent_of.
  pose proof (free_exponent_bounds p q) as [Hlow Hup]. cbv zeta in Hlow, Hup.
  set (e2 := free_exponent p q) in *.
  set (e := Z.max e2 (-1074)).
  pose proof (denominator_at_pos q e) as Hden.
  pose proof (nearest_even_bounds (numerator_at p e) (denominator_at q e) Hden)
    as [Hm0 Hm1].
  set (m := nearest_even (numerator_at p e) (denominator_at q e)) in *.
  assert (Hquot : numerator_at p e / denominator_at q e < 2 ^ 53 /\
                  (e2 < -1074 ->
                   numerator_at p e / denominator_at q e < 2 ^ 52) /\
                  (-1074 <= e2 ->
                   2 ^ 52 <= numerator_at p e / denominator_at q e)).
  { destruct (Z.lt_ge_cases e2 (-1074)) as [Hsub | Hnormal].
    - assert (Hlt : numerator_at p e < 2 ^ 52 * denominator_at q e).
      { pose proof (scale_exponent p q e e2 ltac:(lia)) as Hs.
        pose proof (pow2_ge_2 (e - e2) ltac:(lia)) as H2.
        pose proof (denominator_at_pos q e2) as Hden2.
        pose proof (numerator_at_pos p e) as Hnum.
        set (t := 2 ^ (e - e2)) in *.
        set (n := numerator_at p e) in *. set (n2 := numerator_at p e2) in *.
        set (d := denominator_at q e) in *. set (d2 := denominator_at q e2) in *.
        assert (n2 * d < 2 ^ 53 * d2 * d) by (apply Z.mul_lt_mono_pos_r; lia).
        assert (2 * (n * d2) <= t * (n * d2))
          by (apply Z.mul_le_mono_nonneg_r; nia).
        assert (n * d2 < 2 ^ 52 * d * d2) by lia.
        apply (Z.mul_lt_mono_pos_r d2); lia. }
      assert (numerator_at p e / denominator_at q e < 2 ^ 52)
        by (apply Z.div_lt_upper_bound; lia).
      split; [lia |]. split; [auto | lia].
    - replace e with e2 in * by lia.
      split; [apply Z.div_lt_upper_bound; lia |]. split; [lia |].
      intros _. apply Z.div_le_lower_bound; lia. }
  destruct Hquot as (H53 & Hsub & Hnormal).
  destruct (m =? 2 ^ 53) eqn:Hm.
  - apply Z.eqb_eq in Hm. apply make_number_is_number; [reflexivity |].
    left. split; [reflexivity | lia].
  - apply Z.eqb_neq in Hm. apply make_number_is_number; [lia |].
    destruct (Z.lt_ge_cases e2 (-1074)); [right; lia | left; lia].
Qed.

End Rounding.

Lemma decimal_value_is_number (negative : bool) (s : N) (d : Z) :
  is_number (decimal_value negative s d) = true.
Proof.
  unfold decimal_value. destruct s; [reflexivity |].
  destruct (0 <=? d)%Z; apply round_ratio_is_number.
Qed.

(** The value of a literal is a Number value. *)
Lemma literal_value_is_number (s : jsstring) (x : number) :
  literal_value s = Some x -> is_number x = true.
Proof.
  unfold literal_value. destruct (read_unsigned _) as [[ds d] |];
    intros H; [| discriminate H].
  injection H as <-. apply decimal_value_is_number.
Qed.

(** *** The digits of a number *)

Lemma uint_units_digits (u : Decimal.uint) :
  forallb is_digit (uint_units u) = true.
Proof. induction u; cbn [uint_units forallb]; try rewrite IHu; reflexivity. Qed.

Lemma uint_units_length (u : Decimal.uint) :
  List.length (uint_units u) = Decimal.nb_digits u.
Proof. induction u; cbn [uint_units List.length Decimal.nb_digits]; congruence. Qed.

Lemma digits_value_fold (ds : jsstring) (a : N) :
  fold_left (fun a c => (a * 10 + (c - 48))%N) ds a
  = (a * 10 ^ N.of_nat (List.length ds) + digits_value ds)%N.
Proof.
  unfold digits_value. revert a.
  induction ds as [|c ds IH]; intros a.
  - cbn. lia.
  - cbn [fold_left List.length]. rewrite IH, (IH (0 * 10 + (c - 48))%N).
    rewrite Nat2N.inj_succ, N.pow_succ_r by lia. lia.
Qed.

Lemma digits_value_app (a b : jsstring) :
  digits_value (a ++ b)
  = (digits_value a * 10 ^ N.of_nat (List.length b) + digits_value b)%N.
Proof.
  unfold digits_value at 1. rewrite fold_left_app.
  now rewrite digits_value_fold.
Qed.

Lemma digits_value_cons (c : code_unit) (ds : jsstring) :
  digits_value (c :: ds)
  = ((c - 48) * 10 ^ N.of_nat (List.length ds) + digits_value ds)%N.
Proof. apply (digits_value_app [c] ds). Qed.

Lemma digits_value_zeros (n : Z) : digits_value (zeros n) = 0%N.
Proof.
  unfold zeros. induction (Z.to_nat n) as [|k IH]; [reflexivity |].
  cbn [repeat]. rewrite digits_value_cons, IH. lia.
Qed.

Lemma zeros_length (n : Z) : List.length (zeros n) = Z.to_nat n.
Proof. apply repeat_length. Qed.

Lemma zeros_digits (n : Z) : forallb is_digit (zeros n) = true.
Proof.
  unfold zeros. induction (Z.to_nat n) as [|k IH]; [reflexivity |].
  cbn [repeat forallb]. now rewrite IH.
Qed.

(** The digits of [u], read from the least significant one. *)
Lemma of_lu_units (u : Decimal.uint) :
  DecimalPos.Unsigned.of_lu u = digits_value (List.rev (uint_units u)).
Proof.
  induction u; cbn [DecimalPos.Unsigned.of_lu uint_units List.rev];
    try reflexivity;
    rewrite digits_value_app, <- IHu; cbn [List.length];
    unfold digits_value at 1; cbn [fold_left]; lia.
Qed.

Lemma uint_units_revapp (u v : Decimal.uint) :
  uint_units (Decimal.revapp u v) = List.rev (uint_units u) ++ uint_units v.
Proof.
  revert v. induction u; intros v; cbn [Decimal.revapp uint_units List.rev];
    try reflexivity; rewrite IHu, <- List.app_assoc; reflexivity.
Qed.

Lemma digits_value_units (u : Decimal.uint) :
  digits_value (uint_units u) = N.of_uint u.
Proof.
  unfold N.of_uint. rewrite DecimalPos.Unsigned.of_uint_alt, of_lu_units.
  unfold Decimal.rev. rewrite uint_units_revapp, List.app_nil_r.
  now rewrite List.rev_involutive.
Qed.

Lemma digits_value_digits (s : N) : digits_value (digits_of s) = s.
Proof.
  unfold digits_of. rewrite digits_value_units. apply DecimalN.Unsigned.of_to.
Qed.

Lemma digits_are_digits (s : N) : forallb is_digit (digits_of s) = true.
Proof. apply uint_units_digits. Qed.

(** The digits of a number other than zero start with a digit other than
    [0]. *)
Lemma digits_first (s : N) :
  s <> 0%N ->
  exists c w, digits_of s = c :: w /\ is_digit c = true /\ c <> 48%N.
Proof.
  intros Hs. unfold digits_of.
  assert (Hnorm : Decimal.unorm (N.to_uint s) = N.to_uint s).
  { rewrite <- DecimalN.Unsigned.to_of, DecimalN.Unsigned.of_to. reflexivity. }
  assert (Hnz : N.to_uint s <> Decimal.zero).
  { intros Hz. apply Hs. rewrite <- (DecimalN.Unsigned.of_to s), Hz. reflexivity. }
  unfold Decimal.unorm in Hnorm.
  pose proof (DecimalFacts.nzhead_nonzero (N.to_uint s)) as Hhead.
  destruct (Decimal.nzhead (N.to_uint s)) eqn:Hh;
    try (rewrite <- Hnorm; cbn [uint_units]; do 2 eexists;
         split; [reflexivity | split; [reflexivity | discriminate]]).
  - now rewrite <- Hnorm in Hnz.
  - now destruct (Hhead u).
Qed.

(** *** Reading a literal *)

Lemma take_digits_app (ds rest : jsstring) :
  forallb is_digit ds = true ->
  digits_end rest = true ->
  take_digits (ds ++ rest) = (ds, rest).
Proof.
  intros Hds Hrest. induction ds as [|c ds IH].
  - destruct rest as [|c rest]; [reflexivity |].
    cbn [app take_digits]. cbn [digits_end] in Hrest.
    now destruct (is_digit c).
  - cbn [forallb] in Hds. apply andb_true_iff in Hds as [Hc Hds].
    cbn [app take_digits]. now rewrite Hc, (IH Hds).
Qed.

Lemma forallb_firstn {A} (f : A -> bool) (n : nat) (l : list A) :
  forallb f l = true -> forallb f (firstn n l) = true.
Proof.
  revert n; induction l as [|a l IH]; intros [|n] H; try reflexivity.
  cbn [forallb firstn] in *. apply andb_true_iff in H as [Ha Hl].
  now rewrite Ha, IH.
Qed.

Lemma forallb_skipn {A} (f : A -> bool) (n : nat) (l : list A) :
  forallb f l = true -> forallb f (skipn n l) = true.
Proof.
  revert n; induction l as [|a l IH]; intros [|n] H; try reflexivity; [exact H |].
  cbn [forallb skipn] in *. apply andb_true_iff in H as [Ha Hl]. now apply IH.
Qed.

Lemma integer_part_nonzero (c : code_unit) (w : jsstring) :
  c <> 48%N -> integer_part (c :: w) = true.
Proof.
  intros Hc. destruct w; [reflexivity |]. cbn [integer_part].
  apply negb_true_iff, N.eqb_neq, Hc.
Qed.

Lemma digits_nonempty (s : N) : digits_of s <> [].
Proof.
  destruct (N.eq_dec s 0) as [-> | Hs]; [discriminate |].
  destruct (digits_first s Hs) as (c & w & -> & _). discriminate.
Qed.

(** The exponent part [Number::toString] writes. *)
Lemma read_exponent_written (x : Z) :
  read_exponent
    (101%N :: (if (0 <=? x)%Z then 43%N else 45%N) :: digits_of (Z.abs_N x))
  = Some x.
Proof.
  unfold read_exponent. change ((101 =? 101) || (101 =? 69))%N with true.
  cbv iota.
  pose proof (digits_nonempty (Z.abs_N x)) as Hne.
  pose proof (digits_are_digits (Z.abs_N x)) as Hds.
  pose proof (digits_value_digits (Z.abs_N x)) as Hv.
  destruct (0 <=? x)%Z eqn:Hx; cbv iota;
    rewrite <- (List.app_nil_r (digits_of (Z.abs_N x))),
      (take_digits_app _ [] Hds eq_refl);
    destruct (digits_of (Z.abs_N x)) as [|c w]; try congruence;
    rewrite Hv; f_equal; lia.
Qed.

Lemma read_fraction_none (c : code_unit) (rest : jsstring) :
  c <> 46%N -> read_fraction (c :: rest) = Some ([], c :: rest).
Proof.
  intros Hc. unfold read_fraction.
  destruct c as [|p]; [reflexivity |].
  do 6 (destruct p as [p|p|]; try reflexivity). congruence.
Qed.

Lemma read_fraction_digits (c : code_unit) (frac rest : jsstring) :
  forallb is_digit (c :: frac) = true ->
  digits_end rest = true ->
  read_fraction (46%N :: (c :: frac) ++ rest) = Some (c :: frac, rest).
Proof.
  intros Hds Hrest. unfold read_fraction.
  now rewrite (take_digits_app _ _ Hds Hrest).
Qed.

(** *** What [Number::toString] writes is read back *)

(** [s * 10^d] as a literal of digits and [d] zeros. *)
Lemma decimal_value_zeros (negative : bool) (s : N) (d : Z) :
  (0 <= d)%Z ->
  decimal_value negative (s * 10 ^ Z.to_N d) 0 = decimal_value negative s d.
Proof.
  intros Hd. unfold decimal_value.
  destruct s as [|p]; [reflexivity |].
  assert (Hp : (0 < 10 ^ d)%Z) by (apply Z.pow_pos_nonneg; lia).
  destruct (10 ^ Z.to_N d)%N as [|t] eqn:Ht.
  - exfalso. assert (10 ^ Z.to_N d <> 0)%N by (apply N.pow_nonzero; lia). lia.
  - cbn [N.mul]. apply Z.leb_le in Hd. rewrite Hd. change (0 <=? 0)%Z with true.
    cbv iota. f_equal.
    apply Z.leb_le in Hd.
    assert (Z.pos t = 10 ^ d)%Z.
    { change (Z.pos t) with (Z.of_N (N.pos t)). rewrite <- Ht.
      rewrite N2Z.inj_pow. rewrite Z2N.id by lia. reflexivity. }
    change (10 ^ 0)%Z with 1%Z. change (Z.to_pos 1) with 1%positive.
    rewrite Pos.mul_1_r. f_equal. lia.
Qed.

Lemma read_written (s : N) (d : Z) :
  s <> 0%N ->
  exists s' d',
    read_unsigned (format_digits s d) = Some (s', d') /\
    forall negative,
      decimal_value negative s' d' = decimal_value negative s d.
Proof.
  intros Hs. unfold format_digits.
  destruct (digits_first s Hs) as (c & w & Hds & Hc & Hc0).
  pose proof (digits_are_digits s) as Hall.
  pose proof (digits_value_digits s) as Hvalue.
  set (ds := digits_of s) in *. set (k := Z.of_nat (List.length ds)).
  set (n := (d + k)%Z).
  assert (Hk : (1 <= k)%Z) by (unfold k; rewrite Hds; cbn [List.length]; lia).
  destruct ((k <=? n) && (n <=? 21))%Z eqn:Hcase1.
  { (* the digits, then zeros *)
    apply andb_true_iff in Hcase1 as [Hkn Hn21]. apply Z.leb_le in Hkn, Hn21.
    exists (s * 10 ^ Z.to_N d)%N, 0%Z. split.
    - unfold read_unsigned.
      rewrite <- (List.app_nil_r (ds ++ zeros (n - k))).
      rewrite (take_digits_app (ds ++ zeros (n - k)) []);
        [| rewrite forallb_app, Hall, zeros_digits; reflexivity | reflexivity].
      assert (Hint : integer_part (ds ++ zeros (n - k)) = true)
        by (rewrite Hds; apply (integer_part_nonzero c _ Hc0)).
      rewrite Hint. cbn [read_fraction read_exponent List.length].
      rewrite !List.app_nil_r, digits_value_app, digits_value_zeros, Hvalue.
      rewrite zeros_length. do 2 f_equal.
      rewrite N.add_0_r. f_equal. f_equal. unfold n. lia.
    - intros negative. apply decimal_value_zeros. unfold n in Hkn. lia. }
  destruct ((0 <? n) && (n <=? 21))%Z eqn:Hcase2.
  { (* a point among the digits *)
    apply andb_true_iff in Hcase2 as [Hn0 Hn21]. apply Z.ltb_lt in Hn0.
    apply andb_false_iff in Hcase1 as [Hkn | Hn];
      [apply Z.leb_gt in Hkn | apply Z.leb_gt in Hn; apply Z.leb_le in Hn21; lia].
    exists s, d. split; [| reflexivity].
    unfold read_unsigned.
    rewrite (take_digits_app (firstn (Z.to_nat n) ds) (46%N :: _));
      [| now apply forallb_firstn | reflexivity].
    assert (Hfirst : firstn (Z.to_nat n) ds
                     = c :: firstn (Nat.pred (Z.to_nat n)) w).
    { rewrite Hds. destruct (Z.to_nat n) eqn:Hn; [lia | reflexivity]. }
    rewrite Hfirst at 1. rewrite (integer_part_nonzero c _ Hc0).
    assert (Hlen : List.length (skipn (Z.to_nat n) ds) = Z.to_nat (k - n)).
    { rewrite length_skipn. unfold k. lia. }
    destruct (skipn (Z.to_nat n) ds) as [|c' frac] eqn:Hskip;
      [cbn [List.length] in Hlen; lia |].
    rewrite <- (List.app_nil_r (c' :: frac)).
    rewrite (read_fraction_digits c' frac []);
      [| rewrite <- Hskip; now apply forallb_skipn | reflexivity].
    cbn [read_exponent]. rewrite Hlen, <- Hskip, firstn_skipn, Hvalue.
    do 2 f_equal. unfold n in *. lia. }
  destruct ((-6 <? n) && (n <=? 0))%Z eqn:Hcase3.
  { (* the digits after a point and zeros *)
    apply andb_true_iff in Hcase3 as [Hn6 Hn0]. apply Z.leb_le in Hn0.
    exists s, d. split; [| reflexivity].
    unfold read_unsigned. cbn [take_digits is_digit N.leb N.compare Pos.compare
                               Pos.compare_cont andb integer_part].
    change (is_digit 48%N) with true. change (is_digit 46%N) with false. cbv iota.
    cbn [integer_part].
    assert (Hfrac : forallb is_digit (zeros (- n) ++ ds) = true)
      by (rewrite forallb_app, zeros_digits, Hall; reflexivity).
    destruct (zeros (- n) ++ ds) as [|c' frac] eqn:Heq.
    { apply app_eq_nil in Heq as [_ Heq]. rewrite Hds in Heq. discriminate. }
    rewrite <- (List.app_nil_r (c' :: frac)).
    rewrite (read_fraction_digits c' frac [] Hfrac eq_refl).
    cbn [read_exponent]. rewrite <- Heq.
    change ([48%N] ++ zeros (- n) ++ ds) with (48%N :: zeros (- n) ++ ds).
    rewrite digits_value_cons, digits_value_app, digits_value_zeros, Hvalue.
    rewrite length_app, zeros_length. apply f_equal, f_equal2; [lia |].
    fold k. unfold n in *. lia. }
  (* the exponent *)
  exists s, d. split; [| reflexivity].
  assert (Hexp : forall rest, digits_end (101%N :: rest) = true)
    by reflexivity.
  rewrite Hds. unfold read_unsigned.
  destruct w as [|c2 w].
  - (* one digit *)
    cbn [take_digits]. rewrite Hc. change (is_digit 101%N) with false.
    cbv iota. cbn [integer_part].
    rewrite read_fraction_none by discriminate.
    rewrite read_exponent_written.
    cbn [app List.length]. rewrite <- Hds, Hvalue. do 2 f_equal.
    unfold n, k. rewrite Hds. cbn [List.length]. lia.
  - cbn [take_digits]. rewrite Hc. change (is_digit 46%N) with false.
    cbv iota. cbn [integer_part].
    rewrite (read_fraction_digits c2 w (101%N :: _)); [| | reflexivity].
    + rewrite read_exponent_written.
      change ([c] ++ c2 :: w) with (c :: c2 :: w). rewrite <- Hds, Hvalue.
      do 2 f_equal. unfold n, k. rewrite Hds. cbn [List.length]. lia.
    + rewrite Hds in Hall. cbn [forallb] in Hall.
      apply andb_true_iff in Hall as [_ Hall]. exact Hall.
Qed.

Lemma is_digit_number_unit (l : jsstring) :
  forallb is_digit l = true -> forallb is_number_unit l = true.
Proof.
  induction l as [|c l IH]; [reflexivity |]. cbn [forallb]. intros H.
  apply andb_true_iff in H as [Hc Hl]. unfold is_number_unit at 1.
  now rewrite Hc, IH.
Qed.

(** The text [Number::toString] writes starts with a digit and is made of
    the units of number literals. *)
Lemma written_units (s : N) (d : Z) :
  s <> 0%N ->
  exists c w,
    format_digits s d = c :: w /\
    is_digit c = true /\ forallb is_number_unit w = true.
Proof.
  intros Hs. unfold format_digits.
  destruct (digits_first s Hs) as (c & w & Hds & Hc & _).
  pose proof (digits_are_digits s) as Hall.
  set (ds := digits_of s) in *. set (k := Z.of_nat (List.length ds)).
  set (n := (d + k)%Z).
  assert (Hw : forallb is_digit w = true).
  { rewrite Hds in Hall. cbn [forallb] in Hall.
    now apply andb_true_iff in Hall as [_ Hall]. }
  assert (Hexp : forallb is_number_unit
                   (101%N :: (if (0 <=? n - 1)%Z then 43%N else 45%N)
                    :: digits_of (Z.abs_N (n - 1))) = true).
  { cbn [forallb]. rewrite (is_digit_number_unit _ (digits_are_digits _)).
    now destruct (0 <=? n - 1)%Z. }
  destruct ((k <=? n) && (n <=? 21))%Z.
  { exists c, (w ++ zeros (n - k)). rewrite Hds. split; [reflexivity |].
    split; [exact Hc |]. rewrite forallb_app.
    now rewrite (is_digit_number_unit _ Hw),
      (is_digit_number_unit _ (zeros_digits _)). }
  destruct ((0 <? n) && (n <=? 21))%Z eqn:Hcase2.
  { apply andb_true_iff in Hcase2 as [Hn0 _]. apply Z.ltb_lt in Hn0.
    rewrite Hds. destruct (Z.to_nat n) as [|n'] eqn:Hn; [lia |].
    cbn [firstn skipn app]. do 2 eexists. split; [reflexivity |].
    split; [exact Hc |]. rewrite forallb_app. cbn [forallb].
    rewrite (is_digit_number_unit _ (forallb_firstn _ n' _ Hw)).
    now rewrite (is_digit_number_unit _ (forallb_skipn _ n' _ Hw)). }
  destruct ((-6 <? n) && (n <=? 0))%Z.
  { do 2 eexists. split; [reflexivity |]. split; [reflexivity |].
    cbn [forallb]. rewrite forallb_app.
    now rewrite (is_digit_number_unit _ (zeros_digits _)),
      (is_digit_number_unit _ Hall). }
  rewrite Hds. destruct w as [|c2 w].
  - do 2 eexists. split; [reflexivity |]. split; [exact Hc |]. exact Hexp.
  - do 2 eexists. split; [reflexivity |]. split; [exact Hc |].
    change (forallb is_number_unit (46%N :: (c2 :: w) ++ _))
      with (forallb is_number_unit ((c2 :: w) ++
              101%N :: (if (0 <=? n - 1)%Z then 43%N else 45%N)
              :: digits_of (Z.abs_N (n - 1)))).
    rewrite forallb_app, (is_digit_number_unit _ Hw). exact Hexp.
Qed.

Lemma number_eqb_eq (x y : number) : number_eqb x y = true -> x = y.
Proof.
  destruct x as [|a|a|a m e], y as [|b|b|b m' e']; cbn [number_eqb];
    intros H; try discriminate H; try reflexivity.
  - now apply Bool.eqb_prop in H as ->.
  - now apply Bool.eqb_prop in H as ->.
  - apply andb_true_iff in H as [H He]. apply andb_true_iff in H as [Hs Hm].
    apply Bool.eqb_prop in Hs. apply Pos.eqb_eq in Hm. apply Z.eqb_eq in He.
    now subst.
Qed.

Section ShortestReads.
Variables (x : number) (exact : N) (places count : Z).
Hypothesis Hexact : decimal_value false exact (- places) = x.

Lemma shortest_at_reads (k : Z) (s : N) (d : Z) :
  shortest_at x exact places count k = Some (s, d) -> decimal_value false s d = x.
Proof.
  unfold shortest_at.
  set (step := (10 ^ Z.to_N (count - k))%N). set (low := (exact / step)%N).
  set (high := if (low + 1 =? 10 ^ Z.to_N k)%N then _ else _).
  destruct (number_eqb (decimal_value false low (count - places - k)) x) eqn:Hlow;
    destruct (number_eqb (decimal_value false (fst high) (snd high)) x) eqn:Hhigh;
    cbn [andb];
    repeat match goal with
           | |- context [if ?b then _ else _] => destruct b
           end;
    intros H; try discriminate H;
    destruct high as [hs hd]; injection H as <- <-;
    first [apply number_eqb_eq, Hlow | apply number_eqb_eq, Hhigh].
Qed.

Lemma shortest_reads (more : nat) (k : Z) :
  decimal_value false (fst (shortest x exact places count more k))
                (snd (shortest x exact places count more k)) = x.
Proof.
  revert k. induction more as [|more IH]; intros k; cbn [shortest].
  - exact Hexact.
  - destruct (shortest_at x exact places count k) as [[s d] |] eqn:Hat; [| apply IH].
    exact (shortest_at_reads k s d Hat).
Qed.

End ShortestReads.

(** The sign does not bear on the rounding. *)
Lemma decimal_value_sign (negative : bool) (s : N) (d : Z) (m : positive) (e : Z) :
  decimal_value false s d = Finite false m e ->
  decimal_value negative s d = Finite negative m e.
Proof.
  unfold decimal_value, round_ratio, make_number.
  destruct s as [|p]; [discriminate |].
  repeat match goal with
         | |- context [if ?b then _ else _] => destruct b
         | |- context [match ?z with Z0 => _ | Z.pos _ => _ | Z.neg _ => _ end] =>
             destruct z
         end;
    intros H; try discriminate H; injection H as <- <-; reflexivity.
Qed.

(** All the digits of a Number value read back as that value. *)
Lemma exact_digits_read (negative : bool) (m : positive) (e : Z) :
  is_number (Finite negative m e) = true ->
  decimal_value negative
    (if (0 <=? e)%Z then N.pos m * 2 ^ Z.to_N e else N.pos m * 5 ^ Z.to_N (- e))%N
    (- (if (0 <=? e)%Z then 0 else (- e)))%Z
  = Finite negative m e.
Proof.
  intros Hn. unfold decimal_value.
  destruct (0 <=? e)%Z eqn:He.
  - apply Z.leb_le in He.
    destruct (N.pos m * 2 ^ Z.to_N e)%N as [|p] eqn:Hp.
    { assert (2 ^ Z.to_N e <> 0)%N by (apply N.pow_nonzero; lia). lia. }
    change (0 <=? (- 0))%Z with true. cbv iota.
    change (10 ^ (- 0))%Z with 1%Z. change (Z.to_pos 1) with 1%positive.
    apply round_ratio_exact; [exact Hn |].
    unfold numerator_at, denominator_at.
    rewrite Pos.mul_1_r.
    replace (Z.max 0 (- e)) with 0%Z by lia. replace (Z.max 0 e) with e by lia.
    change (Z.pos p) with (Z.of_N (N.pos p)). rewrite <- Hp.
    rewrite N2Z.inj_mul, N2Z.inj_pow, Z2N.id by lia.
    change (Z.of_N (N.pos m)) with (Z.pos m). change (Z.of_N 2) with 2%Z.
    change (2 ^ 0)%Z with 1%Z. ring.
  - apply Z.leb_gt in He.
    destruct (N.pos m * 5 ^ Z.to_N (- e))%N as [|p] eqn:Hp.
    { assert (5 ^ Z.to_N (- e) <> 0)%N by (apply N.pow_nonzero; lia). lia. }
    replace (- (- e))%Z with e by lia.
    destruct (0 <=? e)%Z eqn:He'; [apply Z.leb_le in He'; lia |].
    apply round_ratio_exact; [exact Hn |].
    unfold numerator_at, denominator_at.
    replace (Z.max 0 (- e)) with (- e)%Z by lia. replace (Z.max 0 e) with 0%Z by lia.
    change (Z.pos p) with (Z.of_N (N.pos p)). rewrite <- Hp.
    rewrite N2Z.inj_mul, N2Z.inj_pow, Z2N.id by lia.
    change (Z.of_N (N.pos m)) with (Z.pos m). change (Z.of_N 5) with 5%Z.
    assert (Hpos : (0 < 10 ^ (- e))%Z) by (apply Z.pow_pos_nonneg; lia).
    rewrite Z2Pos.id by exact Hpos.
    change 10%Z with (5 * 2)%Z. rewrite Z.pow_mul_l.
    change (2 ^ 0)%Z with 1%Z. ring.
Qed.

Lemma literal_value_unsigned (c : code_unit) (w : jsstring) :
  c <> 45%N ->
  literal_value (c :: w)
  = match read_unsigned (c :: w) with
    | Some (ds, d) => Some (decimal_value false ds d)
    | None => None
    end.
Proof.
  intros Hc. unfold literal_value. destruct c as [|p]; [reflexivity |].
  do 6 (destruct p as [p|p|]; try reflexivity). congruence.
Qed.

(** It is the Number value of the text [Number::toString] gives for it:
    that of a finite Number value other than [-0]. *)
Lemma Number_toString_reads_back (x : number) :
  is_number x = true ->
  is_finite x = true ->
  x <> Zero true ->
  literal_value (Number_toString x) = Some x /\
  exists c w,
    Number_toString x = c :: w /\
    (is_digit c = true \/ c = 45%N) /\
    forallb is_number_unit w = true.
Proof.
  intros Hn Hfinite Hzero.
  destruct x as [|b|[|]|b m e]; try discriminate Hfinite; try congruence.
  { split; [reflexivity |]. exists 48%N, []. auto. }
  assert (Hx := exact_digits_read false m e Hn).
  cbn [Number_toString]. unfold finite_to_string.
  set (exact := (if (0 <=? e)%Z then _ else _)%N) in *.
  set (places := (if (0 <=? e)%Z then 0 else - e)%Z) in *.
  set (count := Z.of_nat (List.length (digits_of exact))).
  pose proof (shortest_reads (Finite false m e) exact places count Hx
                (Z.to_nat (count - 1)) 1)
    as Hreads.
  destruct (shortest (Finite false m e) exact places count
              (Z.to_nat (count - 1)) 1) as [s d].
  cbn [fst snd] in Hreads.
  assert (Hs : s <> 0%N) by (intros ->; discriminate Hreads).
  destruct (read_written s d Hs) as (s' & d' & Hread & Hsame).
  destruct (written_units s d Hs) as (c & w & Htext & Hc & Hw).
  assert (Hc45 : c <> 45%N) by (intros ->; discriminate Hc).
  destruct b.
  - split.
    + unfold literal_value. rewrite Hread, Hsame.
      f_equal. now apply decimal_value_sign.
    + exists 45%N, (format_digits s d). split; [reflexivity |].
      split; [now right |]. rewrite Htext. cbn [forallb].
      unfold is_number_unit at 1. now rewrite Hc, Hw.
  - split.
    + rewrite Htext, (literal_value_unsigned c w Hc45), <- Htext, Hread, Hsame.
      now f_equal.
    + exists c, w. auto.
Qed.

(** *** The lexer on a number *)

Lemma value_end_cases (c : code_unit) (rest : jsstring) :
  value_end (c :: rest) = true ->
  c = 9%N \/ c = 10%N \/ c = 13%N \/ c = 32%N \/ c = 44%N \/ c = 93%N \/ c = 125%N.
Proof.
  unfold value_end, is_ws. intros H.
  repeat (apply orb_true_iff in H as [H | H]);
    apply N.eqb_eq in H; auto 10.
Qed.

Lemma lex_number_end (acc rest : jsstring) :
  value_end rest = true ->
  lex_number acc rest = cons_token (number_token (rev acc)) (lex rest).
Proof.
  destruct rest as [|c rest]; intros H.
  - cbn. now destruct (number_token (rev acc)).
  - apply value_end_cases in H.
    destruct H as [-> | [-> | [-> | [-> | [-> | [-> | ->]]]]]]; reflexivity.
Qed.

Lemma lex_number_units (w : jsstring) :
  forall acc rest,
    forallb is_number_unit w = true ->
    value_end rest = true ->
    lex_number acc (w ++ rest)
    = cons_token (number_token (rev acc ++ w)) (lex rest).
Proof.
  induction w as [|c w IH]; intros acc rest Hw Hend.
  - rewrite List.app_nil_r. now apply lex_number_end.
  - cbn [forallb] in Hw. apply andb_true_iff in Hw as [Hc Hw].
    cbn [app lex_number]. rewrite Hc, (IH (c :: acc) rest Hw Hend).
    cbn [rev]. now rewrite <- List.app_assoc.
Qed.

Lemma is_digit_cases (c : code_unit) :
  is_digit c = true ->
  c = 48%N \/ c = 49%N \/ c = 50%N \/ c = 51%N \/ c = 52%N \/
  c = 53%N \/ c = 54%N \/ c = 55%N \/ c = 56%N \/ c = 57%N.
Proof.
  unfold is_digit. intros H. apply andb_true_iff in H as [Hlow Hhigh].
  apply N.leb_le in Hlow, Hhigh. lia.
Qed.

Lemma lex_number_start (c : code_unit) (s : jsstring) :
  is_digit c = true \/ c = 45%N ->
  lex (c :: s) = lex_number [c] s.
Proof.
  intros [Hc | ->]; [| reflexivity].
  apply is_digit_cases in Hc.
  destruct Hc as [-> | [-> | [-> | [-> | [-> | [-> | [-> | [-> | [-> | ->]]]]]]]]];
    reflexivity.
Qed.

(** The lexer reads the text of a number back into the number. *)
Lemma lex_number_text (n : number) (rest : jsstring) (ts : list token) :
  json_number n = true ->
  value_end rest = true ->
  lex rest = Some ts ->
  lex ((if is_finite n then Number_toString n else str "null") ++ rest)
  = Some (TNumber n :: ts).
Proof.
  intros Hn Hend Hrest. unfold json_number in Hn.
  apply andb_true_iff in Hn as [Hn Hzero].
  apply andb_true_iff in Hn as [Hn Hfinite].
  assert (Hnz : n <> Zero true) by (intros ->; discriminate Hzero).
  destruct (Number_toString_reads_back n Hn Hfinite Hnz)
    as (Hvalue & c & w & Htext & Hc & Hw).
  rewrite Hfinite, Htext. cbn [app].
  rewrite (lex_number_start c (w ++ rest) Hc).
  rewrite (lex_number_units w [c] rest Hw Hend). cbn [rev app].
  unfold number_token. now rewrite <- Htext, Hvalue, Hrest.
Qed.

(** *** Strings *)

Lemma hex_value_digit (n : N) : (n < 16)%N -> hex_value (hex_digit n) = Some n.
Proof.
  intros Hn. unfold hex_digit, hex_value.
  destruct (N.ltb_spec n 10).
  - replace ((48 <=? 48 + n) && (48 + n <=? 57))%N with true.
    + f_equal. lia.
    + symmetry. apply andb_true_iff. split; apply N.leb_le; lia.
  - replace ((48 <=? 87 + n) && (87 + n <=? 57))%N with false.
    + replace ((97 <=? 87 + n) && (87 + n <=? 102))%N with true.
      * f_equal. lia.
      * symmetry. apply andb_true_iff. split; apply N.leb_le; lia.
    + symmetry. apply andb_false_iff. right. apply N.leb_gt. lia.
Qed.

Lemma hex4_unicode_escape (c : code_unit) :
  (c < 65536)%N ->
  hex4 (hex_digit ((c / 4096) mod 16)) (hex_digit ((c / 256) mod 16))
       (hex_digit ((c / 16) mod 16)) (hex_digit (c mod 16)) = Some c.
Proof.
  intros Hc. unfold hex4.
  rewrite !hex_value_digit by (apply N.mod_lt; discriminate).
  f_equal. lia.
Qed.

Lemma lex_string_unicode_escape (c : code_unit) (acc tail : jsstring) :
  (c < 65536)%N ->
  lex_string acc (unicode_escape c ++ tail) = lex_string (c :: acc) tail.
Proof.
  intros Hc. unfold unicode_escape. cbn [app].
  cbn [lex_string N.eqb Pos.eqb]. now rewrite hex4_unicode_escape.
Qed.

Lemma surrogate_bound (c : code_unit) :
  is_leading_surrogate c || is_trailing_surrogate c = true -> (c < 65536)%N.
Proof.
  unfold is_leading_surrogate, is_trailing_surrogate. intros H.
  apply orb_true_iff in H as [H | H];
    apply andb_true_iff in H as [_ H]; apply N.leb_le in H; lia.
Qed.

Lemma lex_string_literal (c : code_unit) (acc tail : jsstring) :
  (c =? 34)%N = false -> (c =? 92)%N = false -> (c <? 32)%N = false ->
  lex_string acc (c :: tail) = lex_string (c :: acc) tail.
Proof. intros H1 H2 H3. cbn [lex_string]. now rewrite H1, H2, H3. Qed.

Lemma lex_string_escape_unit (c : code_unit) (acc tail : jsstring) :
  lex_string acc (escape_unit c ++ tail) = lex_string (c :: acc) tail.
Proof.
  unfold escape_unit.
  repeat match goal with
         | |- context [(c =? ?k)%N] =>
             destruct (N.eqb_spec c k); [subst c; reflexivity |]
         end.
  destruct ((c <? 32)%N || is_leading_surrogate c || is_trailing_surrogate c)
    eqn:Hesc.
  - apply lex_string_unicode_escape.
    apply orb_true_iff in Hesc as [Hesc | Hesc].
    + apply orb_true_iff in Hesc as [Hesc | Hesc].
      * apply N.ltb_lt in Hesc. lia.
      * apply surrogate_bound. now rewrite Hesc.
    + apply surrogate_bound. rewrite Hesc. apply orb_true_r.
  - apply orb_false_iff in Hesc as [Hesc _].
    apply orb_false_iff in Hesc as [Hesc _].
    cbn [app]. apply lex_string_literal; [| | exact Hesc];
      now apply N.eqb_neq.
Qed.

Lemma surrogate_literal (c : code_unit) :
  is_leading_surrogate c || is_trailing_surrogate c = true ->
  (c =? 34)%N = false /\ (c =? 92)%N = false /\ (c <? 32)%N = false.
Proof.
  unfold is_leading_surrogate, is_trailing_surrogate. intros H.
  assert (55296 <= c)%N as Hc.
  { apply orb_true_iff in H as [H | H];
      apply andb_true_iff in H as [H _]; apply N.leb_le in H; lia. }
  repeat split; [apply N.eqb_neq | apply N.eqb_neq | apply N.ltb_ge]; lia.
Qed.

(** The units of a string literal are read back, whatever was read
    before them. *)
Lemma lex_string_quote_units (n : nat) :
  forall (s acc rest : jsstring),
    (List.length s <= n)%nat ->
    lex_string acc (quote_units s ++ 34%N :: rest)
    = cons_token (Some (TString (rev acc ++ s))) (lex rest).
Proof.
  induction n as [|n IH]; intros s acc rest Hlen.
  - destruct s; [| cbn in Hlen; lia].
    cbn [quote_units app]. cbn [lex_string N.eqb Pos.eqb].
    now rewrite List.app_nil_r.
  - destruct s as [|c s].
    + cbn [quote_units app]. cbn [lex_string N.eqb Pos.eqb].
      now rewrite List.app_nil_r.
    + cbn [List.length] in Hlen. cbn [quote_units].
      destruct (is_leading_surrogate c) eqn:Hlead.
      * assert (Hlit : is_leading_surrogate c || is_trailing_surrogate c = true)
          by now rewrite Hlead.
        destruct s as [|d s].
        -- rewrite lex_string_unicode_escape by now apply surrogate_bound.
           cbn [lex_string N.eqb Pos.eqb]. cbn [rev]. reflexivity.
        -- destruct (is_trailing_surrogate d) eqn:Htrail.
           ++ cbn [app].
              destruct (surrogate_literal c Hlit) as (H1 & H2 & H3).
              rewrite (lex_string_literal _ _ _ H1 H2 H3).
              assert (Hd : is_leading_surrogate d || is_trailing_surrogate d = true)
                by (rewrite Htrail; apply orb_true_r).
              destruct (surrogate_literal d Hd) as (H4 & H5 & H6).
              rewrite (lex_string_literal _ _ _ H4 H5 H6).
              rewrite IH by (cbn [List.length] in Hlen; lia).
              cbn [rev]. now rewrite <- ?List.app_assoc.
           ++ rewrite <- List.app_assoc.
              rewrite lex_string_unicode_escape by now apply surrogate_bound.
              rewrite IH by lia. cbn [rev]. now rewrite <- ?List.app_assoc.
      * rewrite <- List.app_assoc, lex_string_escape_unit.
        rewrite IH by lia. cbn [rev]. now rewrite <- ?List.app_assoc.
Qed.

Lemma lex_quoted (s rest : jsstring) (ts : list token) :
  lex rest = Some ts ->
  lex (QuoteJSONString s ++ rest) = Some (TString s :: ts).
Proof.
  intros Hrest. unfold QuoteJSONString. cbn [app].
  cbn [lex is_ws N.eqb Pos.eqb orb]. rewrite <- List.app_assoc. cbn [app].
  etransitivity; [exact (lex_string_quote_units _ s [] rest (le_n _)) |].
  now rewrite Hrest.
Qed.

(** *** The lexer on the text of a value *)

Lemma join_comma_cons (p q : jsstring) (ps : list jsstring) :
  join_comma (p :: q :: ps) = p ++ 44%N :: join_comma (q :: ps).
Proof. reflexivity. Qed.

Lemma join_tokens_cons (p q : list token) (ps : list (list token)) :
  join_tokens (p :: q :: ps) = p ++ TComma :: join_tokens (q :: ps).
Proof. reflexivity. Qed.

Lemma lex_punctuation (c : code_unit) (t : token) (rest : jsstring)
      (ts : list token) :
  In (c, t) [(44%N, TComma); (58%N, TColon); (93%N, TRBracket); (125%N, TRBrace);
             (91%N, TLBracket); (123%N, TLBrace)] ->
  lex rest = Some ts ->
  lex (c :: rest) = Some (t :: ts).
Proof.
  intros Hc Hrest. cbn [In] in Hc.
  destruct Hc as [Hc | [Hc | [Hc | [Hc | [Hc | [Hc | []]]]]]];
    injection Hc as <- <-;
    cbn [lex is_ws N.eqb Pos.eqb orb]; now rewrite Hrest.
Qed.

Lemma lex_elements (vs : list json) :
  Forall lexes_back vs ->
  forall rest ts,
    lex rest = Some ts ->
    lex (join_comma (map stringify vs) ++ 93%N :: rest)
    = Some (join_tokens (map tokens vs) ++ TRBracket :: ts).
Proof.
  induction 1 as [|v vs Hv _ IH]; intros rest ts Hrest.
  - apply lex_punctuation; cbn; auto.
  - specialize (IH rest ts Hrest). destruct vs as [|v' vs].
    + cbn [map join_comma join_tokens].
      apply Hv; [reflexivity |]. apply lex_punctuation; cbn; auto.
    + cbn [map] in *. rewrite join_comma_cons, join_tokens_cons.
      rewrite <- !List.app_assoc. cbn [app].
      apply Hv; [reflexivity |]. apply lex_punctuation; cbn; auto.
Qed.

Lemma lex_members (kvs : list (jsstring * json)) :
  Forall (fun kv => lexes_back (snd kv)) kvs ->
  forall rest ts,
    lex rest = Some ts ->
    lex (join_comma
           (map (fun kv => match kv with
                           | (k, x) => QuoteJSONString k ++ 58%N :: stringify x
                           end) kvs)
         ++ 125%N :: rest)
    = Some (join_tokens
              (map (fun kv => match kv with
                              | (k, x) => TString k :: TColon :: tokens x
                              end) kvs)
            ++ TRBrace :: ts).
Proof.
  induction 1 as [|[k v] kvs Hv _ IH]; intros rest ts Hrest.
  - apply lex_punctuation; cbn; auto.
  - cbn [snd] in Hv. specialize (IH rest ts Hrest). destruct kvs as [|kv' kvs].
    + cbn [map join_comma join_tokens].
      rewrite <- !List.app_assoc. cbn [app].
      apply lex_quoted. apply lex_punctuation; [cbn; auto |].
      apply Hv; [reflexivity |]. apply lex_punctuation; cbn; auto.
    + cbn [map] in *. rewrite join_comma_cons, join_tokens_cons.
      rewrite <- !List.app_assoc. cbn [app].
      apply lex_quoted. apply lex_punctuation; [cbn; auto |].
      apply Hv; [reflexivity |]. apply lex_punctuation; cbn; auto.
Qed.

Lemma well_formed_elements (P : json -> Prop) (vs : list json) :
  Forall (fun v => well_formed v = true -> P v) vs ->
  forallb well_formed vs = true ->
  Forall P vs.
Proof.
  induction 1 as [|v vs Hv _ IH]; intros Hwf; constructor;
    cbn [forallb] in Hwf; apply andb_true_iff in Hwf as [H1 H2]; auto.
Qed.

Lemma well_formed_members (P : json -> Prop) (kvs : list (jsstring * json)) :
  Forall (fun kv => well_formed (snd kv) = true -> P (snd kv)) kvs ->
  forallb (fun kv => match kv with (_, x) => well_formed x end) kvs = true ->
  Forall (fun kv => P (snd kv)) kvs.
Proof.
  induction 1 as [|[k v] kvs Hv _ IH]; intros Hwf; constructor;
    cbn [forallb] in Hwf; apply andb_true_iff in Hwf as [H1 H2]; auto.
Qed.

Lemma lex_stringify (v : json) : well_formed v = true -> lexes_back v.
Proof.
  induction v using json_nested_ind; intros Hwf rest ts Hend Hrest.
  - cbn. now rewrite Hrest.
  - destruct b; cbn; now rewrite Hrest.
  - now apply lex_number_text.
  - now apply lex_quoted.
  - cbn [well_formed] in Hwf. pose proof (well_formed_elements _ _ H Hwf) as Hvs.
    cbn [stringify tokens]. cbn [app]. rewrite <- !List.app_assoc. cbn [app].
    apply lex_punctuation; [cbn; auto 10 |]. now apply lex_elements.
  - cbn [well_formed] in Hwf. apply andb_true_iff in Hwf as [_ Hwf].
    pose proof (well_formed_members _ _ H Hwf) as Hkvs.
    cbn [stringify tokens]. cbn [app]. rewrite <- !List.app_assoc. cbn [app].
    apply lex_punctuation; [cbn; auto 10 |]. now apply lex_members.
Qed.

(** *** Objects: creating the properties of an object in its own order *)

Lemma jsstring_eqb_sym (a b : jsstring) : jsstring_eqb a b = jsstring_eqb b a.
Proof.
  destruct (jsstring_eqb a b) eqn:Hab; symmetry.
  - apply jsstring_eqb_eq in Hab as ->. apply jsstring_eqb_refl.
  - destruct (jsstring_eqb b a) eqn:Hba; [| reflexivity].
    apply jsstring_eqb_eq in Hba as ->.
    now rewrite jsstring_eqb_refl in Hab.
Qed.

Lemma has_property_after (k : jsstring) (o : js_object) :
  forallb (fun k' => key_before k' k) (map fst o) = true ->
  has_property k o = false.
Proof.
  induction o as [|[k' v'] o IH]; [reflexivity |].
  cbn [map fst forallb has_property]. intros H.
  apply andb_true_iff in H as [Hk Ho]. rewrite (IH Ho), orb_false_r.
  unfold key_before in Hk. apply andb_true_iff in Hk as [Hk _].
  rewrite jsstring_eqb_sym. now apply negb_true_iff in Hk.
Qed.

Lemma insert_index_after (i : N) (k : jsstring) (v : json) (o : js_object) :
  array_index k = Some i ->
  forallb (fun k' => key_before k' k) (map fst o) = true ->
  insert_index i k v o = o ++ [(k, v)].
Proof.
  intros Hi. induction o as [|[k' v'] o IH]; [reflexivity |].
  cbn [map fst forallb insert_index app]. intros H.
  apply andb_true_iff in H as [Hk Ho].
  unfold key_before in Hk. apply andb_true_iff in Hk as [_ Hk].
  rewrite Hi in Hk. destruct (array_index k') as [j |]; [| discriminate Hk].
  now rewrite Hk, (IH Ho).
Qed.

Lemma CreateDataProperty_after (o : js_object) (k : jsstring) (v : json) :
  forallb (fun k' => key_before k' k) (map fst o) = true ->
  CreateDataProperty o k v = o ++ [(k, v)].
Proof.
  intros H. unfold CreateDataProperty. rewrite (has_property_after _ _ H).
  destruct (array_index k) as [i |] eqn:Hi; [| reflexivity].
  now apply insert_index_after.
Qed.

Lemma keys_ordered_app (ks1 : list jsstring) (k : jsstring) (ks2 : list jsstring) :
  keys_ordered (ks1 ++ k :: ks2) = true ->
  forallb (fun k' => key_before k' k) ks1 = true.
Proof.
  induction ks1 as [|k1 ks1 IH]; [reflexivity |].
  cbn [app keys_ordered forallb]. intros H.
  apply andb_true_iff in H as [Hall Hrest].
  rewrite (IH Hrest), andb_true_r.
  rewrite forallb_app in Hall. apply andb_true_iff in Hall as [_ Hall].
  cbn [forallb] in Hall. now apply andb_true_iff in Hall as [Hall _].
Qed.

Lemma create_properties_ordered (kvs : list (jsstring * json)) :
  forall o,
    keys_ordered (map fst (o ++ kvs)) = true ->
    create_properties o kvs = o ++ kvs.
Proof.
  induction kvs as [|[k v] kvs IH]; intros o H.
  - cbn. now rewrite List.app_nil_r.
  - unfold create_properties. cbn [fold_left].
    rewrite CreateDataProperty_after.
    + fold (create_properties (o ++ [(k, v)]) kvs).
      rewrite IH; rewrite <- List.app_assoc; [reflexivity | exact H].
    + rewrite map_app in H. cbn [map fst] in H.
      exact (keys_ordered_app _ _ _ H).
Qed.

(** *** The parser on the tokens of a value *)

Lemma starts_value_tokens (v : json) (ts : list token) :
  starts_value (tokens v ++ ts) = true.
Proof. destruct v as [| [|] | | | |]; reflexivity. Qed.

Lemma parse_open_array (stack : list frame) (ts : list token) :
  starts_value ts = true ->
  parse_value stack (TLBracket :: ts) = parse_value (InArray [] :: stack) ts.
Proof. destruct ts as [|[] ts]; intros H; try discriminate H; reflexivity. Qed.

Lemma parse_elements (vs : list json) :
  Forall reads_back vs ->
  vs <> [] ->
  forall done stack ts,
    parse_value (InArray done :: stack)
                (join_tokens (map tokens vs) ++ TRBracket :: ts)
    = parse_after stack (JArray (rev done ++ vs)) ts.
Proof.
  induction 1 as [|v vs Hv _ IH]; intros Hne done stack ts; [contradiction |].
  destruct vs as [|v' vs].
  - cbn [map join_tokens]. rewrite Hv. reflexivity.
  - cbn [map] in *. rewrite join_tokens_cons, <- List.app_assoc, Hv.
    cbn [app parse_after]. rewrite IH by discriminate.
    cbn [rev]. now rewrite <- List.app_assoc.
Qed.

Lemma join_tokens_members (k : jsstring) (x : json) (kvs : list (jsstring * json)) :
  join_tokens
    (map (fun kv => match kv with
                    | (k', x') => TString k' :: TColon :: tokens x'
                    end) ((k, x) :: kvs))
  = TString k :: TColon :: tokens x ++ more_members kvs.
Proof.
  revert k x. induction kvs as [|[k' x'] kvs IH]; intros k x.
  - cbn. now rewrite List.app_nil_r.
  - cbn [map] in *. rewrite join_tokens_cons, IH. cbn [more_members flat_map app].
    reflexivity.
Qed.

Lemma parse_members (kvs : list (jsstring * json)) :
  Forall (fun kv => reads_back (snd kv)) kvs ->
  forall k x o stack ts,
    reads_back x ->
    parse_value (InObject o k :: stack)
                (tokens x ++ more_members kvs ++ TRBrace :: ts)
    = parse_after stack (JObject (create_properties o ((k, x) :: kvs))) ts.
Proof.
  induction 1 as [|[k' x'] kvs Hx' _ IH]; intros k x o stack ts Hx.
  - rewrite Hx. reflexivity.
  - cbn [snd] in Hx'. rewrite Hx. cbn [more_members flat_map app parse_after].
    rewrite <- List.app_assoc. fold (more_members kvs).
    now rewrite IH.
Qed.

Lemma ordered_elements (P : json -> Prop) (vs : list json) :
  Forall (fun v => ordered v = true -> P v) vs ->
  forallb ordered vs = true ->
  Forall P vs.
Proof.
  induction 1 as [|v vs Hv _ IH]; intros Hwf; constructor;
    cbn [forallb] in Hwf; apply andb_true_iff in Hwf as [H1 H2]; auto.
Qed.

Lemma ordered_members (P : json -> Prop) (kvs : list (jsstring * json)) :
  Forall (fun kv => ordered (snd kv) = true -> P (snd kv)) kvs ->
  forallb (fun kv => match kv with (_, x) => ordered x end) kvs = true ->
  Forall (fun kv => P (snd kv)) kvs.
Proof.
  induction 1 as [|[k v] kvs Hv _ IH]; intros Hwf; constructor;
    cbn [forallb] in Hwf; apply andb_true_iff in Hwf as [H1 H2]; auto.
Qed.

Lemma parse_tokens (v : json) : ordered v = true -> reads_back v.
Proof.
  induction v using json_nested_ind; intros Hwf stack ts;
    try reflexivity.
  - destruct b; reflexivity.
  - cbn [ordered] in Hwf. pose proof (ordered_elements _ _ H Hwf) as Hvs.
    cbn [tokens]. cbn [app]. rewrite <- List.app_assoc. cbn [app].
    destruct vs as [|v vs]; [reflexivity |].
    rewrite parse_open_array.
    + now rewrite parse_elements.
    + destruct vs; cbn [map];
        [cbn [join_tokens] | rewrite join_tokens_cons, <- List.app_assoc];
        apply starts_value_tokens.
  - cbn [ordered] in Hwf. apply andb_true_iff in Hwf as [Hkeys Hwf].
    pose proof (ordered_members _ _ H Hwf) as Hkvs.
    cbn [tokens]. cbn [app]. rewrite <- List.app_assoc. cbn [app].
    destruct kvs as [|[k x] kvs]; [reflexivity |].
    rewrite join_tokens_members. cbn [app parse_value].
    rewrite <- List.app_assoc. inversion Hkvs as [|? ? Hx Hrest]; subst.
    rewrite parse_members by assumption.
    now rewrite create_properties_ordered.
Qed.

(** *** What [JSON.parse] returns is in enumeration order *)

Lemma digit_of_unit (c : code_unit) (d : Decimal.uint -> Decimal.uint) :
  digit_of c = Some d -> forall u, uint_units (d u) = c :: uint_units u.
Proof.
  unfold digit_of.
  repeat match goal with
         | |- context [(c =? ?k)%N] =>
             destruct (N.eqb_spec c k);
             [subst c; intros H; injection H as <-; reflexivity |]
         end.
  discriminate.
Qed.

Lemma units_uint_units (k : jsstring) (u : Decimal.uint) :
  units_uint k = Some u -> uint_units u = k.
Proof.
  revert u. induction k as [|c k IH]; intros u H; cbn [units_uint] in H.
  - now injection H as <-.
  - destruct (digit_of c) as [d |] eqn:Hd; [| discriminate H].
    destruct (units_uint k) as [u' |]; [| discriminate H].
    injection H as <-. rewrite (digit_of_unit _ _ Hd). f_equal. now apply IH.
Qed.

Lemma array_index_units (k : jsstring) (i : N) :
  array_index k = Some i -> k = uint_units (N.to_uint i).
Proof.
  unfold array_index. destruct (units_uint k) as [u |] eqn:Hu; [| discriminate].
  destruct (Decimal.uint_beq (Decimal.unorm u) u) eqn:Hnorm; [| discriminate].
  destruct (N.of_uint u <? 4294967295)%N; [| discriminate].
  cbn [andb]. intros H. injection H as <-.
  apply Decimal.internal_uint_dec_bl in Hnorm.
  rewrite DecimalN.Unsigned.to_of, Hnorm. symmetry. now apply units_uint_units.
Qed.

Lemma array_index_inj (k1 k2 : jsstring) (i : N) :
  array_index k1 = Some i -> array_index k2 = Some i -> k1 = k2.
Proof.
  intros H1 H2. apply array_index_units in H1, H2. congruence.
Qed.

Lemma has_property_In (k : jsstring) (o : js_object) :
  has_property k o = true <-> In k (map fst o).
Proof.
  induction o as [|[k' v'] o IH]; cbn [has_property map fst In].
  - split; [discriminate | contradiction].
  - rewrite orb_true_iff, IH, jsstring_eqb_eq. intuition congruence.
Qed.

Lemma keys_ordered_cons (k : jsstring) (ks : list jsstring) :
  keys_ordered (k :: ks) = true <->
  (forall k', In k' ks -> key_before k k' = true) /\ keys_ordered ks = true.
Proof.
  cbn [keys_ordered]. now rewrite andb_true_iff, forallb_forall.
Qed.

Lemma key_before_index (k k' : jsstring) (i : N) :
  array_index k = Some i ->
  key_before k k' = true <->
  k <> k' /\ match array_index k' with
             | Some j => (i < j)%N
             | None => True
             end.
Proof.
  intros Hi. unfold key_before. rewrite Hi, andb_true_iff, negb_true_iff.
  assert (Hne : jsstring_eqb k k' = false <-> k <> k').
  { rewrite <- jsstring_eqb_eq. destruct (jsstring_eqb k k'); intuition congruence. }
  rewrite Hne. destruct (array_index k'); [rewrite N.ltb_lt |]; intuition.
Qed.

Lemma key_before_other (k k' : jsstring) :
  array_index k = None ->
  key_before k k' = true <-> k <> k' /\ array_index k' = None.
Proof.
  intros Hi. unfold key_before. rewrite Hi, andb_true_iff, negb_true_iff.
  assert (Hne : jsstring_eqb k k' = false <-> k <> k').
  { rewrite <- jsstring_eqb_eq. destruct (jsstring_eqb k k'); intuition congruence. }
  rewrite Hne. destruct (array_index k'); intuition congruence.
Qed.

Lemma In_insert_index (i : N) (k : jsstring) (v : json) (o : js_object)
      (k' : jsstring) :
  In k' (map fst (insert_index i k v o)) <-> k' = k \/ In k' (map fst o).
Proof.
  induction o as [|[k1 v1] o IH]; cbn [insert_index map fst In].
  - intuition.
  - destruct (array_index k1) as [j |]; [destruct (j <? i)%N |];
      cbn [map fst In]; rewrite ?IH; intuition.
Qed.

Lemma keys_ordered_insert_index (i : N) (k : jsstring) (v : json) (o : js_object) :
  array_index k = Some i ->
  ~ In k (map fst o) ->
  keys_ordered (map fst o) = true ->
  keys_ordered (map fst (insert_index i k v o)) = true.
Proof.
  intros Hi. induction o as [|[k1 v1] o IH]; intros Hnew Hord.
  - reflexivity.
  - cbn [map fst In] in Hnew. cbn [map fst] in Hord.
    apply keys_ordered_cons in Hord as [Hfirst Hrest].
    assert (Hk1 : k1 <> k) by intuition.
    assert (Hk : forall k', In k' (map fst o) -> k <> k')
      by (intros k' Hin ->; intuition).
    cbn [insert_index]. destruct (array_index k1) as [j |] eqn:Hj.
    + destruct (N.ltb_spec j i) as [Hlt | Hge].
      * cbn [map fst]. apply keys_ordered_cons. split.
        -- intros k' Hin. apply In_insert_index in Hin as [-> | Hin].
           ++ apply (key_before_index _ _ _ Hj). rewrite Hi. now split.
           ++ now apply Hfirst.
        -- apply IH; [intuition | exact Hrest].
      * assert (Hij : (i < j)%N).
        { destruct (N.eq_dec i j) as [<- |]; [| lia].
          now destruct Hk1; apply (array_index_inj _ _ _ Hj Hi). }
        cbn [map fst]. apply keys_ordered_cons. split.
        -- intros k' [<- | Hin].
           ++ apply (key_before_index _ _ _ Hi). rewrite Hj. split; congruence.
           ++ apply (key_before_index _ _ _ Hi). split; [now apply Hk |].
              specialize (Hfirst _ Hin).
              apply (key_before_index _ _ _ Hj) in Hfirst as [_ Hfirst].
              destruct (array_index k'); [lia | exact I].
        -- apply keys_ordered_cons. now split.
    + cbn [map fst]. apply keys_ordered_cons. split.
      * intros k' [<- | Hin].
        -- apply (key_before_index _ _ _ Hi). rewrite Hj.
           split; [congruence | exact I].
        -- apply (key_before_index _ _ _ Hi). split; [now apply Hk |].
           specialize (Hfirst _ Hin).
           apply (key_before_other _ _ Hj) in Hfirst as [_ ->]. exact I.
      * apply keys_ordered_cons. now split.
Qed.

Lemma keys_ordered_last (ks : list jsstring) (k : jsstring) :
  array_index k = None ->
  ~ In k ks ->
  keys_ordered ks = true ->
  keys_ordered (ks ++ [k]) = true.
Proof.
  intros Hi. induction ks as [|k1 ks IH]; intros Hnew Hord; [reflexivity |].
  cbn [app]. apply keys_ordered_cons in Hord as [Hfirst Hrest].
  apply keys_ordered_cons. split.
  - intros k' Hin. apply in_app_or in Hin as [Hin | [Hk | []]].
    + now apply Hfirst.
    + subst k'. unfold key_before. rewrite Hi.
      replace (jsstring_eqb k1 k) with false.
      * now destruct (array_index k1).
      * symmetry. destruct (jsstring_eqb k1 k) eqn:Heq; [| reflexivity].
        apply jsstring_eqb_eq in Heq. subst. cbn [In] in Hnew. intuition.
  - apply IH; [cbn [In] in Hnew; intuition | exact Hrest].
Qed.

Lemma keys_replace_property (k : jsstring) (v : json) (o : js_object) :
  map fst (replace_property k v o) = map fst o.
Proof.
  induction o as [|[k1 v1] o IH]; [reflexivity |].
  cbn [replace_property]. destruct (jsstring_eqb k k1); cbn [map fst];
    [reflexivity | now rewrite IH].
Qed.

Lemma values_replace_property (k : jsstring) (v : json) (o : js_object) :
  ordered v = true -> values_ordered o = true ->
  values_ordered (replace_property k v o) = true.
Proof.
  intros Hv. induction o as [|[k1 v1] o IH]; [reflexivity |].
  unfold values_ordered in *. cbn [forallb replace_property]. intros H.
  apply andb_true_iff in H as [H1 H2].
  destruct (jsstring_eqb k k1); cbn [forallb]; apply andb_true_iff; auto.
Qed.

Lemma values_insert_index (i : N) (k : jsstring) (v : json) (o : js_object) :
  ordered v = true -> values_ordered o = true ->
  values_ordered (insert_index i k v o) = true.
Proof.
  intros Hv. induction o as [|[k1 v1] o IH].
  - intros _. unfold values_ordered. cbn. now rewrite Hv.
  - unfold values_ordered in *. cbn [forallb insert_index]. intros H.
    pose proof H as H'. apply andb_true_iff in H as [H1 H2].
    destruct (array_index k1) as [j |]; [destruct (j <? i)%N |];
      cbn [forallb]; rewrite ?Hv, ?H1, ?H2, ?IH; auto.
Qed.

Lemma ordered_CreateDataProperty (o : js_object) (k : jsstring) (v : json) :
  ordered (JObject o) = true -> ordered v = true ->
  ordered (JObject (CreateDataProperty o k v)) = true.
Proof.
  cbn [ordered]. fold (values_ordered o).
  fold (values_ordered (CreateDataProperty o k v)).
  intros Ho Hv. apply andb_true_iff in Ho as [Hkeys Hvalues].
  unfold CreateDataProperty. destruct (has_property k o) eqn:Hhas.
  - now rewrite keys_replace_property, Hkeys, values_replace_property.
  - assert (Hnew : ~ In k (map fst o)).
    { intros Hin. apply has_property_In in Hin. congruence. }
    destruct (array_index k) as [i |] eqn:Hi.
    + now rewrite keys_ordered_insert_index, values_insert_index.
    + rewrite map_app. cbn [map fst].
      rewrite keys_ordered_last by assumption.
      unfold values_ordered in *. rewrite forallb_app. cbn [forallb].
      now rewrite Hvalues, Hv.
Qed.

Lemma forallb_rev {A : Type} (f : A -> bool) (l : list A) :
  forallb f (rev l) = forallb f l.
Proof.
  induction l as [|a l IH]; [reflexivity |].
  cbn [rev forallb]. rewrite forallb_app, IH. cbn [forallb].
  now rewrite andb_true_r, andb_comm.
Qed.

(** Whatever the tokens, the parser returns a value in enumeration order
    when the containers that are open are in enumeration order. *)
Lemma parse_ordered_tokens (n : nat) :
  forall ts stack,
    (List.length ts <= n)%nat ->
    forallb frame_ordered stack = true ->
    (forall v, parse_value stack ts = Some v -> ordered v = true) /\
    (forall v0 v,
        ordered v0 = true -> parse_after stack v0 ts = Some v ->
        ordered v = true).
Proof.
  induction n as [|n IH]; intros ts stack Hlen Hstack.
  - destruct ts; [| cbn in Hlen; lia]. split.
    + discriminate.
    + intros v0 v Hv0 H. destruct stack as [|[done | o k] stack'];
        cbn in H; try discriminate H. now injection H as <-.
  - destruct ts as [|t ts'].
    { split.
      + discriminate.
      + intros v0 v Hv0 H. destruct stack as [|[done | o k] stack'];
          cbn in H; try discriminate H. now injection H as <-. }
    cbn [List.length] in Hlen.
    assert (IHv : forall ts0 stack0 v,
               (List.length ts0 <= n)%nat ->
               forallb frame_ordered stack0 = true ->
               parse_value stack0 ts0 = Some v -> ordered v = true)
      by (intros ts0 stack0 v H1 H2; now apply (IH ts0 stack0 H1 H2)).
    assert (IHa : forall ts0 stack0 v0 v,
               (List.length ts0 <= n)%nat ->
               forallb frame_ordered stack0 = true ->
               ordered v0 = true ->
               parse_after stack0 v0 ts0 = Some v -> ordered v = true)
      by (intros ts0 stack0 v0 v H1 H2; now apply (IH ts0 stack0 H1 H2)).
    clear IH. split.
    + intros v H. destruct t; cbn [parse_value] in H; try discriminate H.
      * (* an object opens *)
        destruct ts' as [|[] ts1]; try discriminate H.
        -- apply (IHa ts1 stack (JObject []) v); auto. cbn in Hlen. lia.
        -- destruct ts1 as [|[] ts2]; try discriminate H.
           apply (IHv ts2 (InObject [] s :: stack) v); auto.
           cbn in Hlen. lia.
      * (* an array opens *)
        destruct ts' as [|t1 ts1]; [discriminate H |].
        assert (Hin : forall v',
                   parse_value (InArray [] :: stack) (t1 :: ts1) = Some v' ->
                   ordered v' = true)
          by (intros v'; apply IHv; [lia | now cbn [forallb frame_ordered]]).
        destruct t1; try (now apply Hin).
        apply (IHa ts1 stack (JArray []) v); auto. cbn in Hlen. lia.
      * apply (IHa ts' stack (JString s) v); auto. lia.
      * eapply (IHa ts' stack (JNumber _) v); eauto. lia.
      * apply (IHa ts' stack (JBool true) v); auto. lia.
      * apply (IHa ts' stack (JBool false) v); auto. lia.
      * apply (IHa ts' stack JNull v); auto. lia.
    + intros v0 v Hv0 H.
      destruct stack as [|[done | o k] stack']; cbn [parse_after] in H;
        [discriminate H | |];
        cbn [forallb] in Hstack; apply andb_true_iff in Hstack as [Hframe Hstack'].
      * (* in an array *)
        destruct t; try discriminate H.
        -- apply (IHa ts' stack' (JArray (rev (v0 :: done))) v); auto; [lia |].
           cbn [ordered]. rewrite forallb_rev. cbn [forallb].
           cbn [frame_ordered] in Hframe. now rewrite Hv0, Hframe.
        -- apply (IHv ts' (InArray (v0 :: done) :: stack') v); auto; [lia |].
           cbn [forallb frame_ordered] in *. now rewrite Hv0, Hframe, Hstack'.
      * (* in an object *)
        cbn [frame_ordered] in Hframe.
        pose proof (ordered_CreateDataProperty o k v0 Hframe Hv0) as Hcreated.
        destruct t; try discriminate H.
        -- apply (IHa ts' stack' (JObject (CreateDataProperty o k v0)) v); auto.
           lia.
        -- destruct ts' as [|[] ts1]; try discriminate H.
           destruct ts1 as [|[] ts2]; try discriminate H.
           apply (IHv ts2 (InObject (CreateDataProperty o k v0) s :: stack') v);
             auto; [cbn in Hlen; lia |].
           cbn [forallb frame_ordered]. now rewrite Hcreated, Hstack'.
Qed.

Lemma parse_ordered (text : jsstring) (v : json) :
  parse text = Some v -> ordered v = true.
Proof.
  unfold parse. destruct (lex text) as [ts |]; [| discriminate].
  apply (parse_ordered_tokens (List.length ts) ts [] (le_n _) eq_refl).
Qed.

(** *** Records *)

Lemma well_formed_ordered (v : json) : well_formed v = true -> ordered v = true.
Proof.
  induction v using json_nested_ind; intros Hwf; try reflexivity.
  - cbn [well_formed ordered] in *.
    induction H as [|v vs Hv _ IH]; [reflexivity |].
    cbn [forallb] in *. apply andb_true_iff in Hwf as [H1 H2].
    now rewrite (Hv H1), (IH H2).
  - cbn [well_formed ordered] in *. apply andb_true_iff in Hwf as [Hkeys Hwf].
    rewrite Hkeys. cbn [andb].
    induction H as [|[k v] kvs Hv _ IH]; [reflexivity |].
    cbn [forallb snd] in *. apply andb_true_iff in Hwf as [H1 H2].
    rewrite (Hv H1). cbn [andb]. apply IH; [| exact H2].
    cbn [map fst] in Hkeys. now apply keys_ordered_cons in Hkeys.
Qed.

(** [JSON.parse (JSON.stringify v)] is [v], for every well-formed [v]. *)
Lemma parse_stringify (v : json) :
  well_formed v = true -> parse (stringify v) = Some v.
Proof.
  intros Hwf. unfold parse.
  pose proof (lex_stringify v Hwf [] [] eq_refl eq_refl) as Hlex.
  rewrite List.app_nil_r in Hlex. rewrite Hlex.
  now rewrite parse_tokens by now apply well_formed_ordered.
Qed.

(** A value in enumeration order whose numbers are finite and other than
    [-0] is well-formed. *)
Lemma ordered_plain_numbers (v : json) :
  ordered v = true -> plain_numbers v = true -> well_formed v = true.
Proof.
  induction v using json_nested_ind; intros Ho Hp; try reflexivity.
  - exact Hp.
  - cbn [well_formed ordered plain_numbers] in *.
    induction H as [|v vs Hv _ IH]; [reflexivity |].
    cbn [forallb] in *. apply andb_true_iff in Ho as [Ho1 Ho2].
    apply andb_true_iff in Hp as [Hp1 Hp2].
    now rewrite (Hv Ho1 Hp1), (IH Ho2 Hp2).
  - cbn [well_formed ordered plain_numbers] in *.
    apply andb_true_iff in Ho as [Hkeys Ho]. rewrite Hkeys. cbn [andb].
    clear Hkeys. induction H as [|[k v] kvs Hv _ IH]; [reflexivity |].
    cbn [forallb snd] in *. apply andb_true_iff in Ho as [Ho1 Ho2].
    apply andb_true_iff in Hp as [Hp1 Hp2].
    now rewrite (Hv Ho1 Hp1), (IH Ho2 Hp2).
Qed.

Lemma to_object_well_formed (d : ResumeData.t) :
  well_formed (ResumeData.feedback d) = true ->
  well_formed (ResumeData.to_object d) = true.
Proof.
  intros Hd. unfold ResumeData.to_object. cbn [well_formed forallb map fst].
  rewrite Hd. reflexivity.
Qed.

Lemma to_object_ordered (d : ResumeData.t) :
  ordered (ResumeData.feedback d) = true ->
  ordered (ResumeData.to_object d) = true.
Proof.
  intros Hd. unfold ResumeData.to_object. cbn [ordered forallb map fst].
  rewrite Hd. reflexivity.
Qed.

Lemma of_object_to_object (d : ResumeData.t) :
  ResumeData.of_object (ResumeData.to_object d) = Some d.
Proof. destruct d. reflexivity. Qed.

(** A record whose feedback is well-formed is read back from its text. *)
Lemma parse_stringify_record (d : ResumeData.t) :
  well_formed (ResumeData.feedback d) = true ->
  parse (stringify (ResumeData.to_object d)) = Some (ResumeData.to_object d).
Proof. intros Hd. now apply parse_stringify, to_object_well_formed. Qed.

(** C9, amended. Serializing a record and parsing the text gives the
    record back: [JSON.parse] returns an object with the same properties,
    from which the same record is read. The six strings of the record are
    arbitrary sequences of code units, and its feedback is any well-formed
    JSON value (an object, nested to any depth, as any other): its numbers
    are finite Number values other than [-0], with or without a fraction,
    and the properties of its objects are distinct and listed in the order
    in which JavaScript enumerates them, as they are in every object a
    program holds. *)
Theorem record_round_trip (d : ResumeData.t) :
  well_formed (ResumeData.feedback d) = true ->
  parse (stringify (ResumeData.to_object d)) = Some (ResumeData.to_object d) /\
  match parse (stringify (ResumeData.to_object d)) with
  | Some v => ResumeData.of_object v
  | None => None
  end = Some d.
Proof.
  intros Hwf. rewrite (parse_stringify_record d Hwf).
  split; [reflexivity | apply of_object_to_object].
Qed.

(** ** Running [handleAnalyze] through its paths *)

Section Properties.
Context {ext : Type} (E : Env ext).
Variables (companyName jobTitle jobDescription : jsstring) (file : File.t).
Variables (s : Session) (x : ext).

Local Abbreviation promise :=
  (fst (run E companyName jobTitle jobDescription file s x)).
Local Abbreviation final :=
  (snd (run E companyName jobTitle jobDescription file s x)).

(** C3. When the Auth Gate reports that the user is not authenticated, the
    run ends with the sign-in error and without any call to a collaborator:
    in particular [fs.upload] is invoked zero times. *)
Theorem unauthenticated_no_upload :
  auth_isAuthenticated E = false ->
  statusText (session final) = str "Error: Please sign in to upload files" /\
  log final = [] /\
  List.length (uploads (log final)) = 0 /\
  navigations (log final) = [].
Proof.
  intros Hauth. run_simpl. rewrite Hauth. run_simpl. repeat split.
Qed.

(** An authenticated run on a file whose type does not contain [pdf]. *)
Lemma run_without_pdf_type :
  auth_isAuthenticated E = true ->
  includes (File.type file) (str "pdf") = false ->
  statusText (session final) = str "Error: Please upload a PDF file" /\
  log final = [].
Proof.
  intros Hauth Htype. run_simpl. rewrite Hauth. run_simpl.
  rewrite Htype. run_simpl. split; reflexivity.
Qed.

(** C4, amended. When the user is authenticated and the declared type of
    the file does not contain [pdf], the run ends with the file-type error
    before any upload. *)
Theorem non_pdf_rejected_before_upload :
  auth_isAuthenticated E = true ->
  includes (File.type file) (str "pdf") = false ->
  statusText (session final) = str "Error: Please upload a PDF file" /\
  List.length (uploads (log final)) = 0 /\
  navigations (log final) = [].
Proof.
  intros Hauth Htype.
  destruct (run_without_pdf_type Hauth Htype) as [Hstatus Hlog].
  rewrite Hlog. repeat split. exact Hstatus.
Qed.

(** C2, amended. On every exit path the processing flag is false when the
    run ends, so that the page shows its idle heading again; the status
    text is not cleared: it keeps the last message of the run, an error
    message or the completion message. *)
Theorem processing_flag_reset :
  isProcessing (session final) = false /\
  heading (session final) = idle_heading /\
  (startsWith (statusText (session final)) (str "Error: ") = true \/
   statusText (session final) = str "Analysis complete, redirecting...").
Proof.
  run_cases; unfold heading; cbn [isProcessing statusText];
    (split; [reflexivity | split; [reflexivity |]]);
    try (right; reflexivity);
    left; first [reflexivity | apply startsWith_app].
Qed.

(** C8. Whatever the collaborators do, the promise of [handleAnalyze]
    resolves: nothing is thrown to the caller. A run that reaches the
    navigation has shown the six working texts in order. Any other run has
    shown the first of them, up to the step that failed, and then a last
    text, its status when it ends, that starts with [Error: ]; none of the
    working texts starts that way. *)
Theorem failures_caught_and_prefixed :
  promise = Resolved tt /\
  ((exists uuid,
       navigations (log final) = [str "/resume/" ++ uuid] /\
       shown final = phase_texts /\
       statusText (session final) = str "Analysis complete, redirecting...")
   \/
   (exists phases message,
       navigations (log final) = [] /\
       shown final = phases ++ [message] /\
       statusText (session final) = message /\
       startsWith message (str "Error: ") = true /\
       exists later, phase_texts = phases ++ later)) /\
  forallb (fun phase => negb (startsWith phase (str "Error:"))) phase_texts = true.
Proof.
  run_cases; (split; [reflexivity | split; [| reflexivity]]);
    try (left; eexists; repeat split; reflexivity);
    right;
    let stopped_after n :=
      (exists (firstn n phase_texts); eexists;
       (split; [reflexivity |]); (split; [reflexivity |]);
       (split; [reflexivity |]);
       split;
       [ first [reflexivity | apply startsWith_app]
       | exists (skipn n phase_texts); reflexivity ]) in
    first [ stopped_after 0%nat | stopped_after 1%nat | stopped_after 2%nat
          | stopped_after 3%nat | stopped_after 4%nat | stopped_after 5%nat ].
Qed.

(** C5. When the Rasterizer returns an image of zero length, the run ends
    with the empty-image error after a single upload, that of the resume,
    and writes no record. When it returns no image at all, the run ends
    with the conversion error, which carries the cause the Rasterizer gave
    or [Unknown error]; the two messages differ, whatever the cause. *)
Theorem empty_image_stops_before_second_upload :
  forall (f : File.t) (result : PdfConversionResult.t),
    In (ConvertPdfToImage f (Resolved result)) (log final) ->
    (forall image,
        PdfConversionResult.file result = Some image ->
        File.size image = 0%N ->
        statusText (session final) = str "Error: Converted image file is empty" /\
        uploads (log final) = [[file]] /\
        kv_sets (log final) = [] /\
        navigations (log final) = [] /\
        forall cause,
          statusText (session final)
          <> str "Error: Failed to convert PDF to image - " ++ cause) /\
    (PdfConversionResult.file result = None ->
     statusText (session final)
     = str "Error: Failed to convert PDF to image - "
       ++ or_default (PdfConversionResult.error result) (str "Unknown error") /\
     uploads (log final) = [[file]] /\
     kv_sets (log final) = [] /\
     navigations (log final) = []).
Proof.
  intros f result. run_cases; intros HIn; in_log HIn.
  all: injection HIn as H1 H2; subst f result.
  all: split; [intros image Hfile Hsize | intros Hfile].
  all: try congruence.
  all: try (rewrite Hfile in *;
            match goal with
            | H : Some _ = Some _ |- _ => injection H as H; subst
            end;
            rewrite Hsize in *; try discriminate).
  all: repeat split; intros cause; discriminate.
Qed.

(** C6. When the Feedback Service returns [null], the run ends with the
    analysis error; both uploads had succeeded and the draft had been
    written, and no second write follows: the draft, with the empty string
    for feedback, is the value held under [resume:] + id. *)
Theorem no_feedback_keeps_draft :
  forall (path instructions : jsstring),
    In (AiFeedback path instructions (Resolved None)) (log final) ->
    exists (uuid : jsstring) (resume image : FSItem.t),
      let key := str "resume:" ++ uuid in
      let draft :=
        stringify
          (ResumeData.to_object
             {| ResumeData.id := uuid;
                ResumeData.resumePath := FSItem.path resume;
                ResumeData.imagePath := FSItem.path image;
                ResumeData.companyName := companyName;
                ResumeData.jobTitle := jobTitle;
                ResumeData.jobDescription := jobDescription;
                ResumeData.feedback := JString [] |}) in
      successful_uploads (log final) = [resume; image] /\
      statusText (session final) = str "Error: Failed to analyze resume" /\
      navigations (log final) = [] /\
      kv_sets (log final) = [(key, draft)] /\
      persisted key (log final) = Some draft.
Proof.
  intros path instructions. run_cases; intros HIn; in_log HIn.
  all: try (injection HIn as _ _ HIn; discriminate HIn).
  do 3 eexists. cbn [successful_uploads kv_sets navigations persisted].
  rewrite jsstring_eqb_refl. repeat split.
Qed.

(** C1, amended. When the Feedback Service returns a response whose text
    parses as JSON (both uploads have then succeeded, and the draft write
    has not thrown), the Record Store receives exactly two [set] calls, both
    under [resume:] + id: the first with the empty string for feedback, the
    second with the parsed text for feedback. *)
Theorem two_writes_when_feedback_parses :
  forall (path instructions : jsstring) (answer : AIResponse.t)
         (text : jsstring) (v : json),
    In (AiFeedback path instructions (Resolved (Some answer))) (log final) ->
    content_text (AIResponse.content_of (AIResponse.message answer)) = Some text ->
    parse text = Some v ->
    exists (uuid : jsstring) (resume image : FSItem.t),
      let key := str "resume:" ++ uuid in
      let draft :=
        {| ResumeData.id := uuid;
           ResumeData.resumePath := FSItem.path resume;
           ResumeData.imagePath := FSItem.path image;
           ResumeData.companyName := companyName;
           ResumeData.jobTitle := jobTitle;
           ResumeData.jobDescription := jobDescription;
           ResumeData.feedback := JString [] |} in
      successful_uploads (log final) = [resume; image] /\
      In (GenerateUUID (Resolved uuid)) (log final) /\
      kv_sets (log final) =
        [ (key, stringify (ResumeData.to_object draft));
          (key, stringify (ResumeData.to_object (ResumeData.set_feedback draft v))) ].
Proof.
  intros path instructions answer text v.
  run_cases; intros HIn Htext Hparse; in_log HIn.
  all: injection HIn as H1 H2 H3; subst path instructions answer.
  all: try congruence.
  all: match goal with
       | H : content_text _ = Some ?t |- _ =>
           rewrite H in Htext; injection Htext as ->
       end.
  all: try congruence.
  all: match goal with
       | H : parse _ = Some ?j |- _ =>
           rewrite H in Hparse; injection Hparse as ->
       end.
  all: do 3 eexists; cbn [successful_uploads kv_sets In];
    split; [reflexivity | split; [| reflexivity]]; auto 10.
Qed.

End Properties.

(** ** The shape of the response *)







(** ** More on [handleAnalyze]: what it calls, in which order, and how it
    stops *)

Section MoreProperties.
Context {ext : Type} (E : Env ext).
Variables (companyName jobTitle jobDescription : jsstring) (file : File.t).
Variables (s : Session) (x : ext).

Local Abbreviation final :=
  (snd (run E companyName jobTitle jobDescription file s x)).

(** X1. A run does not depend on the session it starts in: the promise,
    the calls, the texts shown and the session it ends with are the same
    whatever the status text and the flag were before, so that nothing of
    an earlier run shows in the next one. *)
Theorem run_forgets_session :
  forall s' : Session,
    run E companyName jobTitle jobDescription file s' x
    = run E companyName jobTitle jobDescription file s x.
Proof.
  intros s'.
  remember (run E companyName jobTitle jobDescription file s' x) as r' eqn:Hr'.
  remember (run E companyName jobTitle jobDescription file s x) as r eqn:Hr.
  pattern r', r.
  match goal with |- ?P r' r => set (Q := P) end.
  revert Hr' Hr. run_simpl. repeat run_step; intros -> ->; reflexivity.
Qed.

(** X2. The calls of a run are the first calls of the fixed sequence
    upload, conversion, upload, identifier, write, feedback, write,
    navigation: none is repeated, skipped or made out of order, so a run
    makes at most two uploads, two writes and one call to the Feedback
    Service. *)
Theorem calls_follow_the_order :
  (exists later, call_order = map kind_of (log final) ++ later) /\
  (List.length (uploads (log final)) <= 2)%nat /\
  (List.length (kv_sets (log final)) <= 2)%nat /\
  (List.length (navigations (log final)) <= 1)%nat.
Proof.
  run_cases; cbn [map kind_of uploads kv_sets navigations List.length];
    (split; [| repeat split; lia]);
    let stopped_after n := (exists (skipn n call_order); reflexivity) in
    first [ stopped_after 0%nat | stopped_after 1%nat | stopped_after 2%nat
          | stopped_after 3%nat | stopped_after 4%nat | stopped_after 5%nat
          | stopped_after 6%nat | stopped_after 7%nat | stopped_after 8%nat ].
Qed.

(** X3. Nothing is called after a call that failed: every call of a run
    but the last one succeeded, and when the run navigates every call
    succeeded. There is no retry. *)
Theorem calls_before_the_last_succeed :
  forallb (fun e => negb (stops_run e)) (removelast (log final)) = true /\
  (navigations (log final) <> [] ->
   forallb (fun e => negb (stops_run e)) (log final) = true).
Proof.
  run_cases; cbn [removelast forallb stops_run negb navigations andb];
    repeat match goal with
           | H : ?a = _ |- context [?a] => rewrite H
           end;
    cbn [negb andb]; (split; [reflexivity |]); intros Hnav;
    first [reflexivity | now destruct Hnav].
Qed.

(** X4. The first call of a run is the upload of the file itself. When it
    throws, the run ends there with the upload error and the message of
    what was thrown ([Unknown error] when it is no [Error]); when it
    resolves to nothing, with the upload error for a missing result; the
    Rasterizer is called in neither case. Otherwise the file is handed to
    the Rasterizer next. *)
Theorem resume_upload_failure :
  forall files r rest,
    log final = FsUpload files r :: rest ->
    files = [file] /\
    match r with
    | Rejected t =>
        rest = [] /\
        statusText (session final)
        = str "Error: Failed to upload file - " ++ message_or t (str "Unknown error")
    | Resolved None =>
        rest = [] /\
        statusText (session final)
        = str "Error: Failed to upload file - no result returned"
    | Resolved (Some _) =>
        exists r' rest', rest = ConvertPdfToImage file r' :: rest'
    end.
Proof.
  intros files r rest. run_cases; intros Hlog; try discriminate Hlog.
  all: injection Hlog as <- <- <-; split; [reflexivity |].
  all: first [ split; reflexivity | eexists; eexists; reflexivity ].
Qed.

(** X5. The third call of a run is the upload of the image the Rasterizer
    returned, which is not empty. When that upload throws or resolves to
    nothing, the run ends there with the image upload error: no identifier
    is generated and nothing is written. Otherwise the identifier is
    generated next. *)
Theorem image_upload_failure :
  forall e1 e2 files r rest,
    log final = e1 :: e2 :: FsUpload files r :: rest ->
    (exists resume result image,
        e1 = FsUpload [file] (Resolved (Some resume)) /\
        e2 = ConvertPdfToImage file (Resolved result) /\
        PdfConversionResult.file result = Some image /\
        File.size image <> 0%N /\
        files = [image]) /\
    match r with
    | Rejected t =>
        rest = [] /\
        statusText (session final)
        = str "Error: Failed to upload image - " ++ message_or t (str "Unknown error")
    | Resolved None =>
        rest = [] /\
        statusText (session final)
        = str "Error: Failed to upload image - no result returned"
    | Resolved (Some _) =>
        exists r' rest', rest = GenerateUUID r' :: rest'
    end.
Proof.
  intros e1 e2 files r rest. run_cases; intros Hlog; try discriminate Hlog.
  all: injection Hlog as <- <- <- <- <-.
  all: split;
    [ do 3 eexists; repeat split; try eassumption;
      match goal with
      | H : (_ =? 0)%N = false |- _ => now apply N.eqb_neq in H
      end
    | ].
  all: first [ split; reflexivity | eexists; eexists; reflexivity ].
Qed.

(** X6. When the conversion, the generation of the identifier, a write
    or the Feedback Service throws, the run ends with [Error: ] and the
    message of what was thrown, or [Unknown error occurred] when it is no
    [Error]; it does not navigate. *)
Theorem outer_catch_reports_message :
  forall e t,
    In e (log final) ->
    thrown_to_outer_catch e = Some t ->
    statusText (session final)
    = str "Error: " ++ message_or t (str "Unknown error occurred") /\
    navigations (log final) = [].
Proof.
  intros e t. run_cases; intros Hin Ht; in_log Hin; subst e;
    cbn [thrown_to_outer_catch] in Ht; try discriminate Ht;
    injection Ht as <-; split; reflexivity.
Qed.

(** X7. When the Feedback Service answers with an empty array of blocks,
    or with a text that is not JSON, the run ends with [Error: ] and the
    message of the engine's [TypeError] or [SyntaxError]; there is no
    second write and no navigation, and the draft, with the empty string
    for feedback, is the value held under [resume:] + id. *)
Theorem malformed_feedback_keeps_draft :
  forall (path instructions : jsstring) (answer : AIResponse.t),
    In (AiFeedback path instructions (Resolved (Some answer))) (log final) ->
    (content_text (AIResponse.content_of (AIResponse.message answer)) = None \/
     exists text,
       content_text (AIResponse.content_of (AIResponse.message answer)) = Some text /\
       parse text = None) ->
    exists (uuid : jsstring) (resume image : FSItem.t),
      let key := str "resume:" ++ uuid in
      let draft :=
        stringify
          (ResumeData.to_object
             {| ResumeData.id := uuid;
                ResumeData.resumePath := FSItem.path resume;
                ResumeData.imagePath := FSItem.path image;
                ResumeData.companyName := companyName;
                ResumeData.jobTitle := jobTitle;
                ResumeData.jobDescription := jobDescription;
                ResumeData.feedback := JString [] |}) in
      statusText (session final)
      = str "Error: "
        ++ match content_text (AIResponse.content_of (AIResponse.message answer)) with
           | None => TypeError_message E
           | Some text => SyntaxError_message E text
           end /\
      kv_sets (log final) = [(key, draft)] /\
      persisted key (log final) = Some draft /\
      navigations (log final) = [].
Proof.
  intros path instructions answer.
  run_cases; intros Hin Hbad; in_log Hin.
  all: injection Hin as H1 H2 H3; subst path instructions answer.
  all: try congruence.
  all: match goal with
       | H : content_text _ = _ |- _ => rewrite H in *
       end.
  all: try (destruct Hbad as [Hbad | (text & Htext & Hbad)]; congruence).
  all: do 3 eexists; cbn [kv_sets navigations persisted];
    rewrite jsstring_eqb_refl; repeat split.
Qed.

(** Every write of a run is under [resume:] + the one identifier the run
    generated. *)
Lemma writes_under_generated_id :
  forall key value r,
    In (KvSet key value r) (log final) ->
    exists uuid,
      key = str "resume:" ++ uuid /\
      forall r', In (GenerateUUID r') (log final) -> r' = Resolved uuid.
Proof.
  intros key value r. run_cases; intros Hin; in_calls Hin;
    injection Hin as <- _ _; eexists; (split; [reflexivity |]);
    intros r' Hin'; in_calls Hin'; now injection Hin'.
Qed.

(** X8. What the collaborators are given: the Rasterizer gets the file of
    the request; the Feedback Service gets the path of the uploaded resume
    (not that of the image) and the instructions prepared from the job
    title and the job description; every write is under [resume:] + the
    identifier that was generated, the only one of the run. *)
Theorem collaborators_get_the_request :
  (forall f r, In (ConvertPdfToImage f r) (log final) -> f = file) /\
  (forall path instructions r,
      In (AiFeedback path instructions r) (log final) ->
      instructions = prepareInstructions E jobTitle jobDescription /\
      exists resume image,
        successful_uploads (log final) = [resume; image] /\
        path = FSItem.path resume) /\
  (forall key value r,
      In (KvSet key value r) (log final) ->
      exists uuid,
        key = str "resume:" ++ uuid /\
        forall r', In (GenerateUUID r') (log final) -> r' = Resolved uuid).
Proof.
  split; [| split; [| exact writes_under_generated_id]].
  - intros f r. run_cases; intros Hin; in_calls Hin; now injection Hin.
  - intros path instructions r. run_cases; intros Hin; in_calls Hin;
      injection Hin as <- <- _; (split; [reflexivity |]);
      do 2 eexists; split; reflexivity.
Qed.

(** The records a run writes, field by field. *)
Lemma written_records_of_run :
  forall key value,
    In (key, value) (kv_sets (log final)) ->
    exists (d : ResumeData.t) (resume image : FSItem.t),
      successful_uploads (log final) = [resume; image] /\
      key = str "resume:" ++ ResumeData.id d /\
      value = stringify (ResumeData.to_object d) /\
      ResumeData.resumePath d = FSItem.path resume /\
      ResumeData.imagePath d = FSItem.path image /\
      ResumeData.companyName d = companyName /\
      ResumeData.jobTitle d = jobTitle /\
      ResumeData.jobDescription d = jobDescription /\
      (ResumeData.feedback d = JString [] \/
       exists text, parse text = Some (ResumeData.feedback d)) /\
      (plain_numbers (ResumeData.feedback d) = true ->
       match parse value with
       | Some v => ResumeData.of_object v
       | None => None
       end = Some d).
Proof.
  intros key value. run_cases; cbn [kv_sets In successful_uploads]; intros Hin.
  all: repeat match goal with
              | H : _ \/ _ |- _ => destruct H as [H | H]
              | H : False |- _ => destruct H
              | H : (_, _) = (_, _) |- _ =>
                  apply pair_equal_spec in H as [Hkey Hvalue]; subst key value
              end.
  all: eexists (ResumeData.Build_t _ _ _ _ _ _ _), _, _;
    cbn [ResumeData.id ResumeData.resumePath ResumeData.imagePath
         ResumeData.companyName ResumeData.jobTitle ResumeData.jobDescription
         ResumeData.feedback];
    do 8 (split; [reflexivity |]).
  all: split;
    [ first [left; reflexivity | right; eexists; eassumption]
    | intros Hplain;
      rewrite parse_stringify_record; [apply of_object_to_object |];
      first [reflexivity
            | cbn [ResumeData.feedback ResumeData.set_feedback];
              apply ordered_plain_numbers;
              [eapply parse_ordered; eassumption | exact Hplain]] ].
Qed.

(** X9. Every value a run writes is the text of a record that carries the
    request: the company name, the job title and the job description as
    they were given, the paths of the two uploads, and the generated
    identifier, under which it is written; its feedback is the empty
    string or what [JSON.parse] made of the response. The record is read
    back from that text when the numbers of its feedback are finite and
    other than [-0]: the draft always is. *)
Theorem written_records_carry_request :
  forall key value,
    In (key, value) (kv_sets (log final)) ->
    exists (d : ResumeData.t) (resume image : FSItem.t),
      successful_uploads (log final) = [resume; image] /\
      key = str "resume:" ++ ResumeData.id d /\
      value = stringify (ResumeData.to_object d) /\
      ResumeData.resumePath d = FSItem.path resume /\
      ResumeData.imagePath d = FSItem.path image /\
      ResumeData.companyName d = companyName /\
      ResumeData.jobTitle d = jobTitle /\
      ResumeData.jobDescription d = jobDescription /\
      (ResumeData.feedback d = JString [] \/
       exists text, parse text = Some (ResumeData.feedback d)) /\
      (plain_numbers (ResumeData.feedback d) = true ->
       match parse value with
       | Some v => ResumeData.of_object v
       | None => None
       end = Some d).
Proof. exact written_records_of_run. Qed.

(** X10. A run navigates only once everything has succeeded: it goes to
    [/resume/] + the generated identifier, after two writes that did not
    throw, and the value then held under [resume:] + that identifier is
    the text of the record with the parsed response for feedback. *)
Theorem navigation_means_record_stored :
  forall to,
    In to (navigations (log final)) ->
    exists (uuid text : jsstring) (feedback : json) (resume image : FSItem.t)
           (answer : AIResponse.t),
      to = str "/resume/" ++ uuid /\
      successful_uploads (log final) = [resume; image] /\
      In (AiFeedback (FSItem.path resume)
            (prepareInstructions E jobTitle jobDescription)
            (Resolved (Some answer))) (log final) /\
      content_text (AIResponse.content_of (AIResponse.message answer)) = Some text /\
      parse text = Some feedback /\
      persisted (str "resume:" ++ uuid) (log final)
      = Some (stringify
                (ResumeData.to_object
                   {| ResumeData.id := uuid;
                      ResumeData.resumePath := FSItem.path resume;
                      ResumeData.imagePath := FSItem.path image;
                      ResumeData.companyName := companyName;
                      ResumeData.jobTitle := jobTitle;
                      ResumeData.jobDescription := jobDescription;
                      ResumeData.feedback := feedback |})) /\
      statusText (session final) = str "Analysis complete, redirecting...".
Proof.
  intros to. run_cases; cbn [navigations In]; intros Hin;
    try contradiction.
  destruct Hin as [<- | []].
  do 6 eexists. cbn [successful_uploads persisted In].
  rewrite jsstring_eqb_refl.
  split; [reflexivity |]. split; [reflexivity |].
  split; [auto 10 |]. split; [eassumption |]. split; [eassumption |].
  split; reflexivity.
Qed.

(** X11. The route itself turns a request down only for a user who is not
    signed in or a file whose type does not contain [pdf]: the Blob Store
    is called, on the file of the request and after the text
    [Uploading the file...] was shown first, exactly when the user is
    signed in and the type contains [pdf]. *)
Theorem upload_reached_iff_request_valid :
  (auth_isAuthenticated E = true /\
   includes (File.type file) (str "pdf") = true)
  <->
  (exists r rest more,
      log final = FsUpload [file] r :: rest /\
      shown final = str "Uploading the file..." :: more).
Proof.
  run_cases; split.
  all: try (intros [Hauth Htype]; congruence).
  all: try (intros (r & rest & more & Hlog & _); discriminate Hlog).
  all: try (intros _; split; assumption).
  all: intros _; do 3 eexists; split; reflexivity.
Qed.

(** The flag is down when a run ends. *)
Lemma run_ends_not_processing : isProcessing (session final) = false.
Proof. run_cases; reflexivity. Qed.

End MoreProperties.

(** X12. Records of different identifiers are written under different
    keys: a write of a run that generated one identifier and a write of a
    run that generated another never go to the same key. *)
Theorem keys_of_distinct_ids_differ :
  forall ext1 ext2 (E1 : Env ext1) (E2 : Env ext2)
         c1 t1 d1 f1 s1 x1 c2 t2 d2 f2 s2 x2 uuid1 uuid2 key1 v1 r1 key2 v2 r2,
    In (GenerateUUID (Resolved uuid1)) (log (snd (run E1 c1 t1 d1 f1 s1 x1))) ->
    In (GenerateUUID (Resolved uuid2)) (log (snd (run E2 c2 t2 d2 f2 s2 x2))) ->
    In (KvSet key1 v1 r1) (log (snd (run E1 c1 t1 d1 f1 s1 x1))) ->
    In (KvSet key2 v2 r2) (log (snd (run E2 c2 t2 d2 f2 s2 x2))) ->
    uuid1 <> uuid2 ->
    key1 <> key2.
Proof.
  intros ext1 ext2 E1 E2 c1 t1 d1 f1 s1 x1 c2 t2 d2 f2 s2 x2
         uuid1 uuid2 key1 v1 r1 key2 v2 r2 Hid1 Hid2 Hset1 Hset2 Hne Heq.
  destruct (writes_under_generated_id E1 c1 t1 d1 f1 s1 x1 _ _ _ Hset1)
    as (u1 & -> & Hu1).
  destruct (writes_under_generated_id E2 c2 t2 d2 f2 s2 x2 _ _ _ Hset2)
    as (u2 & -> & Hu2).
  apply Hu1 in Hid1. apply Hu2 in Hid2.
  injection Hid1 as <-. injection Hid2 as <-.
  apply app_inv_head in Heq. contradiction.
Qed.

(** ** Submitting the form *)

(** X13. Submitting with no file selected does nothing but prevent the
    default action, whatever the form holds: no text is shown, the session
    is as it was, and no collaborator is called; so does submitting from
    an element that is in no form. *)
Theorem submit_without_file_does_nothing :
  forall ext (E : Env ext) (e : SubmitEvent) (current : option File.t)
         (f : option File.t) (s : Session) (x : ext),
    closest_form e = None \/ f = None ->
    handleSubmit E e (handleFileSelect f current) s x
    = Some (true, {| session := s; shown := []; log := []; external := x |}).
Proof.
  intros ext E e current f s x H. unfold handleSubmit, handleFileSelect.
  destruct (closest_form e) as [form |]; [| reflexivity].
  destruct H as [H | ->]; [discriminate H | reflexivity].
Qed.

(** X14. Submitting the form the route renders, with a file selected,
    runs [handleAnalyze] on the values of the three controls and on that
    file, whatever [FileUploader] adds to the form: the file is what is
    uploaded first, and every record written carries the three values. *)
Theorem submit_runs_on_form_values :
  forall ext (E : Env ext) companyName jobTitle jobDescription uploader
         (current : option File.t) (file : File.t) (s : Session) (x : ext),
    let e := {| closest_form :=
                  Some (upload_form companyName jobTitle jobDescription uploader) |} in
    exists w,
      handleSubmit E e (handleFileSelect (Some file) current) s x = Some (true, w) /\
      w = snd (run E companyName jobTitle jobDescription file s x) /\
      (forall files, hd_error (uploads (log w)) = Some files -> files = [file]) /\
      forall key value,
        In (key, value) (kv_sets (log w)) ->
        exists d : ResumeData.t,
          value = stringify (ResumeData.to_object d) /\
          ResumeData.companyName d = companyName /\
          ResumeData.jobTitle d = jobTitle /\
          ResumeData.jobDescription d = jobDescription.
Proof.
  intros ext E companyName jobTitle jobDescription uploader current file s x e.
  eexists. split; [reflexivity |]. split; [reflexivity |]. split.
  - intros files. run_cases; cbn [uploads hd_error]; intros H;
      try discriminate H; now injection H.
  - intros key value Hin.
    destruct (written_records_of_run E _ _ _ _ _ _ _ _ Hin)
      as (d & resume & image & _ & _ & Hvalue & _ & _ & Hc & Ht & Hd & _).
    exists d. auto.
Qed.

(** X15. The form can only be submitted while it is shown, that is while
    no run is in progress. Once the submission is over, whatever happened,
    the page shows the form again under the idle heading, without the scan
    animation: the status text of the run, the error of a failed run
    included, is not on the page. *)
Theorem page_is_idle_after_submit :
  forall ext (E : Env ext) (e : SubmitEvent) (file : option File.t)
         (s : Session) (x : ext) (prevented : bool) (w : world ext),
    view_form (render s) = true ->
    handleSubmit E e file s x = Some (prevented, w) ->
    prevented = true /\
    render (session w)
    = {| view_heading := idle_heading; view_scan := false; view_form := true |} /\
    startsWith (view_heading (render (session w))) (str "Error: ") = false.
Proof.
  intros ext E e file s x prevented w Hshown Hsubmit.
  assert (Hidle : isProcessing (session w) = false /\ prevented = true).
  { unfold handleSubmit in Hsubmit.
    cbn [render view_form] in Hshown. apply negb_true_iff in Hshown.
    destruct (closest_form e) as [form |];
      [destruct file as [f |] |];
      [destruct (FormData_get _ form) as [c |]; [| discriminate Hsubmit];
       destruct (FormData_get _ form) as [t |]; [| discriminate Hsubmit];
       destruct (FormData_get _ form) as [d |]; [| discriminate Hsubmit]
      | | ];
      injection Hsubmit as <- <-; (split; [| reflexivity]);
      first [exact Hshown | apply run_ends_not_processing]. }
  destruct Hidle as [Hidle ->]. split; [reflexivity |].
  unfold render, heading. rewrite Hidle. split; reflexivity.
Qed.

(** ** The scenarios: instances of the theorems, and the inputs on which
    statements of the specification fail *)

(** C1, as stated, fails: with both uploads successful and the Feedback
    Service answering [null], the Record Store receives one [set] call. *)
Lemma two_writes_counterexample :
  ~ (List.length
       (successful_uploads (log (scenario_run (scenario true 2048 None)))) = 2 ->
     exists key draft final,
       kv_sets (log (scenario_run (scenario true 2048 None)))
       = [(key, draft); (key, final)]).
Proof.
  intros H. destruct (H eq_refl) as (key & draft & final & Hsets).
  vm_compute in Hsets. discriminate Hsets.
Qed.

Lemma two_writes_when_feedback_parses_witness :
  exists key draft final,
    kv_sets
      (log (scenario_run
              (scenario true 2048
                 (Some (response (AIResponse.ContentString (score_text "80.5")))))))
    = [(key, draft); (key, final)].
Proof.
  assert (Hin :
    In (AiFeedback (str "/store/resume.pdf") (str "Engineer" ++ str "Builds things")
          (Resolved
             (Some (response (AIResponse.ContentString (score_text "80.5"))))))
       (log (snd (run
                    (scenario true 2048
                       (Some (response
                                (AIResponse.ContentString (score_text "80.5")))))
                    (str "Acme") (str "Engineer") (str "Builds things")
                    resume_pdf initial_session tt))))
    by (vm_compute; auto 10).
  assert (Hparse :
    parse (score_text "80.5")
    = Some (JObject [(str "score", JNumber (decimal_value false 805 (-1)))]))
    by (vm_compute; reflexivity).
  destruct
    (two_writes_when_feedback_parses _ _ _ _ _ _ _ _ _ _ _ _ Hin eq_refl Hparse)
    as (uuid & resume & image & _ & _ & Hsets).
  cbv zeta in Hsets. eexists _, _, _. exact Hsets.
Defined.

(** C2, as stated, fails: the run of an unauthenticated user ends with the
    sign-in error for status text, not with the text the session started
    with. *)
Lemma status_text_reset_counterexample :
  ~ (isProcessing (session (scenario_run (scenario false 2048 None))) = false /\
     statusText (session (scenario_run (scenario false 2048 None)))
     = statusText initial_session).
Proof. intros [_ H]. vm_compute in H. discriminate H. Qed.

Lemma unauthenticated_no_upload_witness :
  auth_isAuthenticated (scenario false 2048 None) = false /\
  log (scenario_run (scenario false 2048 None)) = [].
Proof.
  split; [reflexivity |].
  exact (proj1 (proj2
    (unauthenticated_no_upload (scenario false 2048 None)
       (str "Acme") (str "Engineer") (str "Builds things")
       resume_pdf initial_session tt eq_refl))).
Defined.

(** C4, as stated, fails: a text file sent by an unauthenticated user is
    turned down with the sign-in error, not with the file-type error. *)
Lemma non_pdf_counterexample :
  ~ (includes (File.type notes_txt) (str "pdf") = false ->
     statusText (session (scenario_run_with notes_txt (scenario false 2048 None)))
     = str "Error: Please upload a PDF file").
Proof. intros H. specialize (H eq_refl). vm_compute in H. discriminate H. Qed.

Lemma non_pdf_rejected_before_upload_witness :
  includes (File.type notes_txt) (str "pdf") = false /\
  statusText (session (scenario_run_with notes_txt (scenario true 2048 None)))
  = str "Error: Please upload a PDF file".
Proof.
  split; [reflexivity |].
  exact (proj1
    (non_pdf_rejected_before_upload (scenario true 2048 None)
       (str "Acme") (str "Engineer") (str "Builds things")
       notes_txt initial_session tt eq_refl eq_refl)).
Defined.

Lemma empty_image_stops_before_second_upload_witness :
  File.size (page_png 0) = 0%N /\
  statusText (session (scenario_run (scenario true 0 None)))
  = str "Error: Converted image file is empty" /\
  uploads (log (scenario_run (scenario true 0 None))) = [[resume_pdf]].
Proof.
  split; [reflexivity |].
  assert (Hin :
    In (ConvertPdfToImage resume_pdf
          (Resolved {| PdfConversionResult.file := Some (page_png 0);
                       PdfConversionResult.error := None |}))
       (log (snd (run (scenario true 0 None)
                      (str "Acme") (str "Engineer") (str "Builds things")
                      resume_pdf initial_session tt))))
    by (vm_compute; auto 10).
  destruct
    (proj1 (empty_image_stops_before_second_upload _ _ _ _ _ _ _ _ _ Hin)
           (page_png 0) eq_refl eq_refl)
    as (Hstatus & Huploads & _).
  split; [exact Hstatus | exact Huploads].
Defined.

Lemma no_feedback_keeps_draft_witness :
  exists uuid,
    persisted (str "resume:" ++ uuid) (log (scenario_run (scenario true 2048 None)))
    <> None.
Proof.
  destruct
    (no_feedback_keeps_draft (scenario true 2048 None)
       (str "Acme") (str "Engineer") (str "Builds things")
       resume_pdf initial_session tt
       (str "/store/resume.pdf") (str "Engineer" ++ str "Builds things"))
    as (uuid & resume & image & _ & _ & _ & _ & Hkept).
  - vm_compute. auto 10.
  - exists uuid. cbv zeta in Hkept.
    change (persisted (str "resume:" ++ uuid)
                      (log (scenario_run (scenario true 2048 None)))) with
      (persisted (str "resume:" ++ uuid)
         (log (snd (run (scenario true 2048 None) (str "Acme") (str "Engineer")
                        (str "Builds things") resume_pdf initial_session tt)))).
    rewrite Hkept. discriminate.
Defined.



(** C9, as stated, fails: [JSON.parse] reads [1e999] as [Infinity], which
    [JSON.stringify] writes as [null]. The record whose feedback is what
    the response [{"score":1e999}] parses to is not read back from its
    text. *)
Lemma record_round_trip_counterexample :
  parse (score_text "1e999")
  = Some (JObject [(str "score", JNumber (Infinity false))]) /\
  ~ (match
       parse (stringify
                (ResumeData.to_object
                   (scenario_record
                      (JObject [(str "score", JNumber (Infinity false))]))))
     with
     | Some v => ResumeData.of_object v
     | None => None
     end
     = Some (scenario_record (JObject [(str "score", JNumber (Infinity false))]))).
Proof.
  split; [vm_compute; reflexivity |].
  intros H. vm_compute in H. discriminate H.
Qed.

Lemma record_round_trip_witness :
  well_formed sample_feedback = true /\
  match parse (stringify (ResumeData.to_object (scenario_record sample_feedback))) with
  | Some v => ResumeData.of_object v
  | None => None
  end = Some (scenario_record sample_feedback).
Proof.
  assert (Hwf : well_formed sample_feedback = true) by (vm_compute; reflexivity).
  split; [exact Hwf |].
  exact (proj2 (record_round_trip (scenario_record sample_feedback) Hwf)).
Defined.

(** ** Instances of the further properties *)

Lemma resume_upload_failure_witness :
  statusText (session (scenario_run (failing Upload (scenario true 2048 None))))
  = str "Error: Failed to upload file - Service unavailable".
Proof.
  assert (Hlog :
    log (snd (run (failing Upload (scenario true 2048 None))
                  (str "Acme") (str "Engineer") (str "Builds things")
                  resume_pdf initial_session tt))
    = [FsUpload [resume_pdf] (Rejected unavailable)])
    by (vm_compute; reflexivity).
  exact (proj2 (proj2 (resume_upload_failure _ _ _ _ _ _ _ _ _ _ Hlog))).
Defined.

Lemma image_upload_failure_witness :
  exists image,
    uploads (log (scenario_run (scenario true 2048 None)))
    = [[resume_pdf]; [image]] /\
    File.size image <> 0%N.
Proof.
  assert (Hlog :
    exists e1 e2 r rest,
      log (snd (run (scenario true 2048 None)
                    (str "Acme") (str "Engineer") (str "Builds things")
                    resume_pdf initial_session tt))
      = e1 :: e2 :: FsUpload [page_png 2048] r :: rest)
    by (vm_compute; do 4 eexists; reflexivity).
  destruct Hlog as (e1 & e2 & r & rest & Hlog).
  destruct (image_upload_failure _ _ _ _ _ _ _ _ _ _ _ _ Hlog)
    as [(resume & result & image & _ & _ & _ & Hsize & Hfiles) _].
  exists image. split; [| exact Hsize].
  injection Hfiles as <-. vm_compute. reflexivity.
Defined.

Lemma outer_catch_reports_message_witness :
  statusText (session (scenario_run (failing KvWrite (scenario true 2048 None))))
  = str "Error: Service unavailable" /\
  navigations (log (scenario_run (failing KvWrite (scenario true 2048 None)))) = [].
Proof.
  assert (Hin :
    exists key value,
      In (KvSet key value (Rejected unavailable))
         (log (snd (run (failing KvWrite (scenario true 2048 None))
                        (str "Acme") (str "Engineer") (str "Builds things")
                        resume_pdf initial_session tt))))
    by (vm_compute; do 2 eexists; auto 10).
  destruct Hin as (key & value & Hin).
  exact (outer_catch_reports_message _ _ _ _ _ _ _ _ unavailable Hin eq_refl).
Defined.

Lemma malformed_feedback_keeps_draft_witness :
  parse (str "not json") = None /\
  statusText
    (session (scenario_run
                (scenario true 2048
                   (Some (response (AIResponse.ContentString (str "not json")))))))
  = str "Error: Unexpected token" /\
  navigations
    (log (scenario_run
            (scenario true 2048
               (Some (response (AIResponse.ContentString (str "not json")))))))
  = [].
Proof.
  assert (Hparse : parse (str "not json") = None) by (vm_compute; reflexivity).
  split; [exact Hparse |].
  assert (Hin :
    In (AiFeedback (str "/store/resume.pdf") (str "Engineer" ++ str "Builds things")
          (Resolved
             (Some (response (AIResponse.ContentString (str "not json"))))))
       (log (snd (run
                    (scenario true 2048
                       (Some (response
                                (AIResponse.ContentString (str "not json")))))
                    (str "Acme") (str "Engineer") (str "Builds things")
                    resume_pdf initial_session tt))))
    by (vm_compute; auto 10).
  destruct
    (malformed_feedback_keeps_draft _ _ _ _ _ _ _ _ _ _ Hin
       (or_intror (ex_intro _ (str "not json") (conj eq_refl Hparse))))
    as (uuid & resume & image & Hstatus & _ & _ & Hnav).
  split; [exact Hstatus | exact Hnav].
Defined.

Lemma written_records_carry_request_witness :
  exists d : ResumeData.t,
    In (str "resume:" ++ ResumeData.id d, stringify (ResumeData.to_object d))
       (kv_sets (log (scenario_run (scenario true 2048 None)))) /\
    ResumeData.companyName d = str "Acme".
Proof.
  assert (Hin :
    exists key value,
      In (key, value)
         (kv_sets
            (log (snd (run (scenario true 2048 None)
                           (str "Acme") (str "Engineer") (str "Builds things")
                           resume_pdf initial_session tt)))))
    by (vm_compute; do 2 eexists; auto).
  destruct Hin as (key & value & Hin).
  destruct (written_records_carry_request _ _ _ _ _ _ _ _ _ Hin)
    as (d & resume & image & _ & Hkey & Hvalue & _ & _ & Hcompany & _).
  exists d. split; [| exact Hcompany].
  rewrite <- Hkey, <- Hvalue. exact Hin.
Defined.

Lemma navigation_means_record_stored_witness :
  exists uuid,
    In (str "/resume/" ++ uuid)
       (navigations
          (log (scenario_run
                  (scenario true 2048
                     (Some (response (AIResponse.ContentString (score_text "80.5")))))))) /\
    persisted (str "resume:" ++ uuid)
      (log (scenario_run
              (scenario true 2048
                 (Some (response (AIResponse.ContentString (score_text "80.5")))))))
    <> None.
Proof.
  assert (Hin :
    exists to,
      In to
         (navigations
            (log (snd (run
                         (scenario true 2048
                            (Some (response
                                     (AIResponse.ContentString (score_text "80.5")))))
                         (str "Acme") (str "Engineer") (str "Builds things")
                         resume_pdf initial_session tt)))))
    by (vm_compute; eexists; auto).
  destruct Hin as (to & Hin).
  destruct (navigation_means_record_stored _ _ _ _ _ _ _ _ Hin)
    as (uuid & text & feedback & resume & image & answer
        & Hto & _ & _ & _ & _ & Hkept & _).
  exists uuid. split.
  - rewrite <- Hto. exact Hin.
  - unfold scenario_run, scenario_run_with. rewrite Hkept. discriminate.
Defined.

Lemma keys_of_distinct_ids_differ_witness :
  scenario_uuid <> another_uuid /\
  forall key1 key2,
    In key1 (map fst (kv_sets (log (scenario_run (scenario true 2048 None))))) ->
    In key2
       (map fst
          (kv_sets
             (log (scenario_run (generating another_uuid (scenario true 2048 None)))))) ->
    key1 <> key2.
Proof.
  assert (Hne : scenario_uuid <> another_uuid) by (vm_compute; discriminate).
  split; [exact Hne |].
  intros key1 key2 H1 H2.
  assert (Hset1 :
    exists value,
      In (KvSet key1 value (Resolved true))
         (log (snd (run (scenario true 2048 None)
                        (str "Acme") (str "Engineer") (str "Builds things")
                        resume_pdf initial_session tt)))).
  { vm_compute in H1. destruct H1 as [<- | []]. vm_compute. eexists.
    do 4 right. left. reflexivity. }
  assert (Hset2 :
    exists value,
      In (KvSet key2 value (Resolved true))
         (log (snd (run (generating another_uuid (scenario true 2048 None))
                        (str "Acme") (str "Engineer") (str "Builds things")
                        resume_pdf initial_session tt)))).
  { vm_compute in H2. destruct H2 as [<- | []]. vm_compute. eexists.
    do 4 right. left. reflexivity. }
  destruct Hset1 as (value1 & Hset1). destruct Hset2 as (value2 & Hset2).
  refine (keys_of_distinct_ids_differ _ _ _ _ _ _ _ _ _ _ _ _ _ _ _ _
            scenario_uuid another_uuid _ _ _ _ _ _ _ _ Hset1 Hset2 Hne);
    vm_compute; do 3 right; left; reflexivity.
Defined.

Lemma submit_without_file_does_nothing_witness :
  handleSubmit (scenario true 2048 None) scenario_submit
    (handleFileSelect None (Some resume_pdf)) initial_session tt
  = Some (true, {| session := initial_session; shown := []; log := [];
                   external := tt |}).
Proof.
  exact (submit_without_file_does_nothing unit (scenario true 2048 None)
           scenario_submit (Some resume_pdf) None initial_session tt
           (or_intror eq_refl)).
Defined.

Lemma page_is_idle_after_submit_witness :
  view_form (render initial_session) = true /\
  startsWith
    (statusText
       (session (scenario_run (failing Upload (scenario true 2048 None)))))
    (str "Error: ") = true /\
  view_heading
    (render (session (scenario_run (failing Upload (scenario true 2048 None)))))
  = idle_heading.
Proof.
  split; [reflexivity |]. split; [vm_compute; reflexivity |].
  assert (Hsubmit :
    handleSubmit (failing Upload (scenario true 2048 None)) scenario_submit
      (Some resume_pdf) initial_session tt
    = Some (true, scenario_run (failing Upload (scenario true 2048 None))))
    by reflexivity.
  destruct (page_is_idle_after_submit unit
              (failing Upload (scenario true 2048 None)) scenario_submit
              (Some resume_pdf) initial_session tt true
              (scenario_run (failing Upload (scenario true 2048 None)))
              eq_refl Hsubmit)
    as (_ & Hview & _).
  rewrite Hview. reflexivity.
Defined.
